(** * Brokkr: verification of the lifecycle orchestrator (brokkr.go)

    The orchestrator starts a set of background tasks as goroutines of an
    [errgroup.Group], waits for a termination signal, an explicit [Stop] or a
    critical failure, and then drives the stop phase of every task.

    The embedding has two layers.
    - The sequential part ([NewBrokkr], the options, [createChildContext],
      [Stop]) is a set of plain functions over a record.
    - [Start] is concurrent.  It is embedded as an executable interleaving
      semantics: a state holding what the goroutines share (the two contexts,
      the error slot of the group, the loop variable, the signal channel) and
      one [step] per atomic action of a goroutine or of the environment.  What
      the tasks themselves do ([OnStart], [OnStop]) and what the OS does
      (signals, the clock, [uuid.NewUUID]) is chosen by the event. *)

From Stdlib Require Import ZArith Lia.
From stdpp Require Import base tactics option list strings numbers.

Open Scope string_scope.
Open Scope list_scope.
Open Scope Z_scope.

(** ** Errors *)

(** Go's [error] values that the orchestrator can meet; the [nil] error is
    [None] of [option error]. *)
Inductive error : Type :=
| Canceled                                 (* context.Canceled *)
| DeadlineExceeded                         (* context.DeadlineExceeded *)
| errorString (s : string)                 (* errors.New, fmt.Errorf without %w *)
| wrapError (msg : string) (err : error).  (* fmt.Errorf with %w *)

#[global] Instance error_eq_dec : EqDecision error.
Proof. solve_decision. Defined.

(** The [Error()] method. *)
Definition Error (e : error) : string :=
  match e with
  | Canceled => "context canceled"
  | DeadlineExceeded => "context deadline exceeded"
  | errorString s => s
  | wrapError msg _ => msg
  end.

(** [errors.Is]: equality with the target somewhere along the [Unwrap] chain. *)
Fixpoint errors_Is (err target : error) : bool :=
  if decide (err = target) then true
  else match err with
       | wrapError _ inner => errors_Is inner target
       | _ => false
       end.

(** [fmt.Errorf("unable to generate background task UUID, err: %v", e)]:
    the verb is [%v], so the result does not wrap [e]. *)
Definition uuidFault (e : error) : error :=
  errorString ("unable to generate background task UUID, err: " +:+ Error e).

(** ** OS signals and durations *)

(** [syscall.Signal] is an [int]. *)
Definition Signal := Z.
Definition SIGINT : Signal := 2.
Definition SIGQUIT : Signal := 3.
Definition SIGTERM : Signal := 15.

(** [time.Duration] counts nanoseconds; instants are nanoseconds as well. *)
Definition Duration := Z.
Definition Second : Duration := 1000000000.

(** ** Contexts *)

(** The shape of a context: how it was derived.  Whether it has been
    cancelled is run-time state and lives in [RunState]. *)
Inductive Context : Type :=
| Background
| withCancel (parent : Context)
| withValue (parent : Context) (key val : string)
| withDeadline (parent : Context) (deadline : Z).

#[global] Instance Context_eq_dec : EqDecision Context.
Proof. solve_decision. Defined.

(** [ctx.Value(key)]. *)
Fixpoint Value (ctx : Context) (k : string) : option string :=
  match ctx with
  | Background => None
  | withCancel p => Value p k
  | withValue p k' v => if decide (k' = k) then Some v else Value p k
  | withDeadline p _ => Value p k
  end.

(** [ctx.Deadline()]. *)
Fixpoint Deadline (ctx : Context) : option Z :=
  match ctx with
  | Background => None
  | withCancel p => Deadline p
  | withValue p _ _ => Deadline p
  | withDeadline _ d => Some d
  end.

(** [context.WithDeadline]: a parent that expires earlier keeps its own
    deadline. *)
Definition WithDeadline (parent : Context) (d : Z) : Context :=
  match Deadline parent with
  | Some cur => if cur <? d then withCancel parent else withDeadline parent d
  | None => withDeadline parent d
  end.

(** [context.WithTimeout(parent, timeout)] called at instant [now]. *)
Definition WithTimeout (now : Z) (parent : Context) (timeout : Duration) : Context :=
  WithDeadline parent (now + timeout).

(** A cancel function, named by the context it cancels. *)
Inductive CancelFunc : Type := cancelOf (ctx : Context).

#[global] Instance CancelFunc_eq_dec : EqDecision CancelFunc.
Proof. solve_decision. Defined.

(** ** Tasks *)

(** Modelled from the spec: the package [component/background] (the interface
    [background.Process] and [background.IsCriticalToStop]) is not part of the
    sources at hand.  The spec gives a task a name and a criticality flag;
    its two blocking operations are played by the events of the run. *)
Record Process : Type := mkProcess {
  GetName : string;
  critical : bool
}.

#[global] Instance Process_eq_dec : EqDecision Process.
Proof. solve_decision. Defined.

(** Modelled from the spec: [background.IsCriticalToStop] is the task's
    [isCritical()]. *)
Definition IsCriticalToStop (p : Process) : bool := critical p.

(** ** The orchestrator *)

Record Brokkr : Type := mkBrokkr {
  signals : list Signal;
  stopTimeout : Duration;
  backgroundTasks : list Process;
  mainContext : Context;
  mainContextCancel : option CancelFunc
}.

Definition Options := Brokkr -> Brokkr.

Definition SetForceStopTimeout (t : Duration) : Options :=
  fun c => mkBrokkr (signals c) t (backgroundTasks c)
                    (mainContext c) (mainContextCancel c).

Definition AddBackgroundTasks (bt : list Process) : Options :=
  fun c => mkBrokkr (signals c) (stopTimeout c) (backgroundTasks c ++ bt)
                    (mainContext c) (mainContextCancel c).

Definition NewBrokkr (opts : list Options) : Brokkr :=
  let b := mkBrokkr [SIGTERM; SIGQUIT; SIGINT] (60 * Second) []
                    (withCancel Background)
                    (Some (cancelOf (withCancel Background))) in
  foldl (fun b o => o b) b opts.

Definition createChildContext (c : Brokkr) (k v : string) : Context :=
  withValue (mainContext c) k v.

(** ** The goroutines of [Start] *)

(** Where the goroutine of [Start] itself stands.  [range] evaluates the slice
    once, so the loop head carries the tasks still to be visited. *)
Inductive MainPC : Type :=
| PCRange (rest : list Process)                  (* for _, t := range ... *)
| PCGoStop (task : Process) (rest : list Process)   (* task := t done; first Go pending *)
| PCGoStart (task : Process) (rest : list Process)  (* second Go pending *)
| PCNotify                                       (* signal.Notify pending *)
| PCGoCoord                                      (* third Go pending *)
| PCWait.                                        (* blocked in TaskErrorGroup.Wait() *)

#[global] Instance MainPC_eq_dec : EqDecision MainPC.
Proof. solve_decision. Defined.

(** A stop-unit: blocked on [<-TaskErrorGroupCtx.Done()], inside
    [task.OnStop(taskStopCtx)] (with the context it passed and that context's
    [Err()]), or returned. *)
Inductive StopPhase : Type :=
| Waiting
| InStop (ctx : Context) (err : option error)
| StopReturned.

(** A start-unit: inside [task.OnStart(TaskErrorGroupCtx)], or returned. *)
Inductive StartPhase : Type :=
| Running
| StartReturned.

Inductive UnitId : Type :=
| UStop (i : nat)
| UStart (i : nat)
| UCoord.

#[global] Instance UnitId_eq_dec : EqDecision UnitId.
Proof. solve_decision. Defined.

(** One call [task.OnStop(taskStopCtx)]: the unit that made it, the task it
    was made on, the context passed and what [Err()] of that context was at
    the call. *)
Record StopCall : Type := mkStopCall {
  callUnit : nat;
  callTask : Process;
  callCtx : Context;
  callErr : option error
}.

(** What the goroutines share.  Each closure captures its own [task]; the
    loop variable [t] is one variable for the whole loop (the project builds
    with Go 1.20 and 1.21), so it is a field of the state.  [submitted] and
    [stopCalls] are history: what the units returned to the group, and the
    calls of [OnStop], oldest first. *)
Record RunState : Type := mkRunState {
  self : Brokkr;
  now : Z;
  mainDone : bool;                          (* c.mainContext is cancelled *)
  groupErr : option error;                  (* the group's first error *)
  pc : MainPC;
  loopT : option Process;                   (* the loop variable t *)
  stopUnits : list (Process * StopPhase);   (* captured task, phase *)
  startUnits : list (Process * StartPhase);
  coordReturned : bool;
  interruptSignal : list Signal;            (* make(chan os.Signal, 1) *)
  submitted : list (UnitId * error);
  stopCalls : list StopCall
}.

Definition initState (c : Brokkr) : RunState :=
  mkRunState c 0 false None (PCRange (backgroundTasks c)) None [] [] false [] [] [].

(** [TaskErrorGroupCtx] is derived from [c.mainContext] by
    [errgroup.WithContext]: it is done once the parent is cancelled or the
    group has recorded its first error. *)
Definition groupCtxDone (s : RunState) : bool :=
  mainDone s || match groupErr s with Some _ => true | None => false end.

(** The wrapper of [errgroup.Group.Go]: a non-nil return takes the error slot
    if it is free (and cancels the group's context, see [groupCtxDone]). *)
Definition submit (u : UnitId) (r : option error) (s : RunState) : RunState :=
  match r with
  | None => s
  | Some e =>
      mkRunState (self s) (now s) (mainDone s)
        (match groupErr s with Some e0 => Some e0 | None => Some e end)
        (pc s) (loopT s) (stopUnits s) (startUnits s) (coordReturned s)
        (interruptSignal s) (submitted s ++ [(u, e)]) (stopCalls s)
  end.

Arguments submit : simpl never.

Definition setPC (p : MainPC) (s : RunState) : RunState :=
  mkRunState (self s) (now s) (mainDone s) (groupErr s) p (loopT s)
    (stopUnits s) (startUnits s) (coordReturned s) (interruptSignal s)
    (submitted s) (stopCalls s).

Definition setLoopT (t : Process) (s : RunState) : RunState :=
  mkRunState (self s) (now s) (mainDone s) (groupErr s) (pc s) (Some t)
    (stopUnits s) (startUnits s) (coordReturned s) (interruptSignal s)
    (submitted s) (stopCalls s).

Definition setStopUnits (l : list (Process * StopPhase)) (s : RunState) : RunState :=
  mkRunState (self s) (now s) (mainDone s) (groupErr s) (pc s) (loopT s)
    l (startUnits s) (coordReturned s) (interruptSignal s)
    (submitted s) (stopCalls s).

Definition setStartUnits (l : list (Process * StartPhase)) (s : RunState) : RunState :=
  mkRunState (self s) (now s) (mainDone s) (groupErr s) (pc s) (loopT s)
    (stopUnits s) l (coordReturned s) (interruptSignal s)
    (submitted s) (stopCalls s).

Definition setCoordReturned (s : RunState) : RunState :=
  mkRunState (self s) (now s) (mainDone s) (groupErr s) (pc s) (loopT s)
    (stopUnits s) (startUnits s) true (interruptSignal s)
    (submitted s) (stopCalls s).

Definition setInterruptSignal (q : list Signal) (s : RunState) : RunState :=
  mkRunState (self s) (now s) (mainDone s) (groupErr s) (pc s) (loopT s)
    (stopUnits s) (startUnits s) (coordReturned s) q
    (submitted s) (stopCalls s).

Definition setNow (n : Z) (s : RunState) : RunState :=
  mkRunState (self s) n (mainDone s) (groupErr s) (pc s) (loopT s)
    (stopUnits s) (startUnits s) (coordReturned s) (interruptSignal s)
    (submitted s) (stopCalls s).

Definition addStopCall (k : StopCall) (s : RunState) : RunState :=
  mkRunState (self s) (now s) (mainDone s) (groupErr s) (pc s) (loopT s)
    (stopUnits s) (startUnits s) (coordReturned s) (interruptSignal s)
    (submitted s) (stopCalls s ++ [k]).

(** Cancelling a context reaches the live contexts derived from it; a context
    that already has an error keeps it. *)
Definition cancelChild (u : Process * StopPhase) : Process * StopPhase :=
  match u with
  | (task, InStop ctx None) => (task, InStop ctx (Some Canceled))
  | _ => u
  end.

(** The timer of a [WithTimeout] context fires once its deadline is reached. *)
Definition expireChild (n : Z) (u : Process * StopPhase) : Process * StopPhase :=
  match u with
  | (task, InStop ctx None) =>
      match Deadline ctx with
      | Some d => if d <=? n then (task, InStop ctx (Some DeadlineExceeded)) else u
      | None => u
      end
  | _ => u
  end.

(** Calling the cancel function of [c.mainContext]; a second call finds the
    context cancelled and does nothing. *)
Definition cancelMain (s : RunState) : RunState :=
  if mainDone s then s
  else mkRunState (self s) (now s) true (groupErr s) (pc s) (loopT s)
         (cancelChild <$> stopUnits s) (startUnits s) (coordReturned s)
         (interruptSignal s) (submitted s) (stopCalls s).

(** [Stop] (lines 160-166): the new shared state and the returned error.
    [c.mainContext] is cancelled only through the function [NewBrokkr] paired
    with it. *)
Definition Stop (s : RunState) : RunState * option error :=
  (match mainContextCancel (self s) with
   | Some f =>
       if decide (f = cancelOf (mainContext (self s))) then cancelMain s else s
   | None => s
   end, None).

(** [Err()] of a context that [context.WithTimeout] has just returned: a
    cancelled parent cancels the child at once, and a deadline that is not in
    the future expires it at once. *)
Definition freshErr (s : RunState) (ctx : Context) : option error :=
  if mainDone s then Some Canceled
  else match Deadline ctx with
       | Some d => if d <=? now s then Some DeadlineExceeded else None
       | None => None
       end.

(** [signal.Notify(interruptSignal, c.signals...)]: with no signal listed,
    every signal is relayed. *)
Definition relayed (c : Brokkr) (sg : Signal) : bool :=
  match signals c with
  | [] => true
  | l => bool_decide (sg ∈ l)
  end.

(** The channel is registered once [signal.Notify] has run. *)
Definition notified (s : RunState) : bool :=
  match pc s with
  | PCGoCoord | PCWait => true
  | _ => false
  end.

(** The coordination unit exists once the third [Go] has run. *)
Definition coordRunning (s : RunState) : bool :=
  bool_decide (pc s = PCWait) && negb (coordReturned s).

(** ** Events *)

Inductive Event : Type :=
| EvMain                                   (* the goroutine of Start runs its next statement *)
| EvStopCall                               (* some goroutine calls c.Stop() *)
| EvSignal (sg : Signal)                   (* the OS delivers a signal *)
| EvTick (d : Z)                           (* d nanoseconds elapse *)
| EvCoordDone                              (* select takes <-TaskErrorGroupCtx.Done() *)
| EvCoordSignal                            (* select takes <-interruptSignal *)
| EvStartReturn (i : nat) (r : option error)   (* OnStart of start-unit i returns r *)
| EvStopWake (i : nat) (u : string + error)    (* stop-unit i wakes; uuid.NewUUID gives u *)
| EvStopReturn (i : nat) (r : option error).   (* OnStop of stop-unit i returns r *)

(** The next statement of [Start]'s own goroutine (brokkr.go, lines 97-148):
    the loop head binds [t] and copies it into [task], the two [Go] calls
    spawn the stop-unit and the start-unit of [task], and after the loop come
    [signal.Notify] and the [Go] of the coordination unit. *)
Definition stepMain (s : RunState) : option RunState :=
  match pc s with
  | PCRange [] => Some (setPC PCNotify s)
  | PCRange (t :: rest) => Some (setPC (PCGoStop t rest) (setLoopT t s))
  | PCGoStop task rest =>
      Some (setPC (PCGoStart task rest)
              (setStopUnits (stopUnits s ++ [(task, Waiting)]) s))
  | PCGoStart task rest =>
      Some (setPC (PCRange rest)
              (setStartUnits (startUnits s ++ [(task, Running)]) s))
  | PCNotify => Some (setPC PCGoCoord s)
  | PCGoCoord => Some (setPC PCWait s)
  | PCWait => None
  end.

(** The body of a start-unit after [OnStart] has returned [r] (lines
    124-129). *)
Definition startUnitResult (task : Process) (r : option error) : option error :=
  match r with
  | Some taskErr => if IsCriticalToStop task then Some taskErr else None
  | None => None
  end.

(** One atomic action; [None] when the action is not possible in [s].
    - [EvStopCall]: [Stop], lines 160-166.
    - [EvSignal]: the runtime's non-blocking send on the channel registered
      by [signal.Notify], whose buffer holds one signal.
    - [EvCoordDone], [EvCoordSignal]: the two cases of the [select], lines
      138-146; with both ready either may be taken.
    - [EvStartReturn]: lines 121-130.
    - [EvStopWake]: lines 102-115 up to the call of [task.OnStop]; the
      name comes from the loop variable [t], the call goes to [task].
    - [EvStopReturn]: the return of [task.OnStop], line 115. *)
Definition step (s : RunState) (e : Event) : option RunState :=
  match e with
  | EvMain => stepMain s
  | EvStopCall => Some (fst (Stop s))
  | EvSignal sg =>
      if notified s && relayed (self s) sg then
        match interruptSignal s with
        | [] => Some (setInterruptSignal [sg] s)
        | _ => Some s                      (* the buffer is full: dropped *)
        end
      else None
  | EvTick d =>
      if 0 <=? d then
        Some (setStopUnits (expireChild (now s + d) <$> stopUnits s)
                (setNow (now s + d) s))
      else None
  | EvCoordDone =>
      if coordRunning s && groupCtxDone s then
        (* return TaskErrorGroupCtx.Err() *)
        Some (submit UCoord (Some Canceled) (setCoordReturned s))
      else None
  | EvCoordSignal =>
      if coordRunning s then
        match interruptSignal s with
        | _ :: q =>
            (* return c.Stop() *)
            let '(s', r) := Stop (setInterruptSignal q s) in
            Some (submit UCoord r (setCoordReturned s'))
        | [] => None
        end
      else None
  | EvStartReturn i r =>
      match startUnits s !! i with
      | Some (task, Running) =>
          Some (submit (UStart i) (startUnitResult task r)
                  (setStartUnits (<[i := (task, StartReturned)]> (startUnits s)) s))
      | _ => None
      end
  | EvStopWake i u =>
      match stopUnits s !! i with
      | Some (task, Waiting) =>
          if groupCtxDone s then
            match u with
            | inr errNewUUID =>
                Some (submit (UStop i) (Some (uuidFault errNewUUID))
                        (setStopUnits (<[i := (task, StopReturned)]> (stopUnits s)) s))
            | inl newUUID =>
                match loopT s with
                | Some t =>
                    let ctx :=
                      WithTimeout (now s)
                        (createChildContext (self s) newUUID (GetName t))
                        (stopTimeout (self s)) in
                    let err := freshErr s ctx in
                    Some (addStopCall (mkStopCall i task ctx err)
                            (setStopUnits
                               (<[i := (task, InStop ctx err)]> (stopUnits s)) s))
                | None => None
                end
            end
          else None
      | _ => None
      end
  | EvStopReturn i r =>
      match stopUnits s !! i with
      | Some (task, InStop _ _) =>
          Some (submit (UStop i) r
                  (setStopUnits (<[i := (task, StopReturned)]> (stopUnits s)) s))
      | _ => None
      end
  end.

(** A schedule, run from [s]. *)
Fixpoint run (tr : list Event) (s : RunState) : option RunState :=
  match tr with
  | [] => Some s
  | e :: tr' =>
      match step s e with
      | Some s' => run tr' s'
      | None => None
      end
  end.

Definition stopUnitDone (u : Process * StopPhase) : bool :=
  match u with (_, StopReturned) => true | _ => false end.

Definition startUnitDone (u : Process * StartPhase) : bool :=
  match u with (_, StartReturned) => true | _ => false end.

(** Every goroutine of the group has returned and [Start] sits in [Wait]. *)
Definition terminated (s : RunState) : bool :=
  bool_decide (pc s = PCWait) && coordReturned s
  && forallb stopUnitDone (stopUnits s)
  && forallb startUnitDone (startUnits s).

(** The last statement of [Start] (lines 152-156): what it does with the
    error of [Wait]. *)
Definition filterCanceled (err : option error) : option error :=
  match err with
  | Some e => if errors_Is e Canceled then None else Some e
  | None => None
  end.

(** The value [Start] returns, once it returns. *)
Definition StartResult (s : RunState) : option (option error) :=
  if terminated s then Some (filterCanceled (groupErr s)) else None.

(** How many times unit [i] has called [OnStop]. *)
Definition stopCallsOf (i : nat) (s : RunState) : nat :=
  length (filter (fun k => callUnit k = i) (stopCalls s)).

(** ** Reachable states *)

(** The tasks for which the loop of [Start] has not yet spawned the
    stop-unit, and those for which it has not yet spawned the start-unit. *)
Definition pendingStops (p : MainPC) : list Process :=
  match p with
  | PCRange rest => rest
  | PCGoStop task rest => task :: rest
  | PCGoStart _ rest => rest
  | _ => []
  end.

Definition pendingStarts (p : MainPC) : list Process :=
  match p with
  | PCRange rest => rest
  | PCGoStop task rest => task :: rest
  | PCGoStart task rest => task :: rest
  | _ => []
  end.

(** What holds in every state [Start] can reach: the units spawned so far
    follow [c.backgroundTasks] in order, the loop variable is set as soon as a
    closure can read it, the error slot holds the first error returned to the
    group, the coordination unit only ever returns [context.Canceled], and
    each call of [OnStop] was made by a stop-unit on the task it captured. *)
Record Inv (s : RunState) : Prop := mkInv {
  inv_stops :
    (fst <$> stopUnits s) ++ pendingStops (pc s) = backgroundTasks (self s);
  inv_starts :
    (fst <$> startUnits s) ++ pendingStarts (pc s) = backgroundTasks (self s);
  inv_loopT :
    loopT s = None -> stopUnits s = [] /\ forall t r, pc s <> PCGoStop t r;
  inv_slot : groupErr s = head (snd <$> submitted s);
  inv_coord : forall x, (UCoord, x) ∈ submitted s -> x = Canceled;
  inv_calls :
    forall k, k ∈ stopCalls s ->
      (fst <$> stopUnits s) !! callUnit k = Some (callTask k)
}.

(** ** Work left *)

(** The number of steps the goroutines of [Start] still have to take: for the
    goroutine of [Start], its remaining statements and the steps of the units
    it will still spawn. *)
Definition stopWeight (u : Process * StopPhase) : nat :=
  match u with
  | (_, Waiting) => 2
  | (_, InStop _ _) => 1
  | (_, StopReturned) => 0
  end.

Definition startWeight (u : Process * StartPhase) : nat :=
  match u with
  | (_, Running) => 1
  | (_, StartReturned) => 0
  end.

Definition pcWeight (p : MainPC) : nat :=
  match p with
  | PCRange rest => 6 * length rest + 4
  | PCGoStop _ rest => 6 * length rest + 9
  | PCGoStart _ rest => 6 * length rest + 6
  | PCNotify => 3
  | PCGoCoord => 2
  | PCWait => 0
  end.

Definition workLeft (s : RunState) : nat :=
  pcWeight (pc s)
  + (if coordReturned s then 0 else 1)
  + sum_list (stopWeight <$> stopUnits s)
  + sum_list (startWeight <$> startUnits s).

(** ** Counting on schedules *)

(** Stop-unit [i] wakes in event [e] and [uuid.NewUUID] succeeds (it goes on
    to call [OnStop]), or fails (it returns the fault). *)
Definition wakeOk (i : nat) (e : Event) : nat :=
  match e with
  | EvStopWake j (inl _) => if decide (j = i) then 1%nat else 0%nat
  | _ => 0%nat
  end.

Definition wakeFault (i : nat) (e : Event) : nat :=
  match e with
  | EvStopWake j (inr _) => if decide (j = i) then 1%nat else 0%nat
  | _ => 0%nat
  end.

Definition uuidOks (i : nat) (tr : list Event) : nat := sum_list (wakeOk i <$> tr).
Definition uuidFaults (i : nat) (tr : list Event) : nat := sum_list (wakeFault i <$> tr).

(** 1 while stop-unit [i] has not yet passed [<-TaskErrorGroupCtx.Done()]
    (spawned or not), 0 afterwards. *)
Definition phaseNotWoken (o : option (Process * StopPhase)) : nat :=
  match o with
  | None | Some (_, Waiting) => 1%nat
  | Some _ => 0%nat
  end.

Definition notWoken (i : nat) (s : RunState) : nat :=
  phaseNotWoken (stopUnits s !! i).

(** The state a schedule leads to ([initState c] when the schedule is not
    possible). *)
Definition stateAfter (c : Brokkr) (tr : list Event) : RunState :=
  default (initState c) (run tr (initState c)).

(** ** Sample configurations and schedules *)

Definition taskA : Process := mkProcess "a" false.
Definition taskB : Process := mkProcess "b" false.
Definition critA : Process := mkProcess "a" true.
Definition critB : Process := mkProcess "b" true.

Definition oneTask : Brokkr :=
  NewBrokkr [AddBackgroundTasks [taskA]; SetForceStopTimeout (5 * Second)].
Definition twoTasks : Brokkr := NewBrokkr [AddBackgroundTasks [taskA; taskB]].
Definition oneCritical : Brokkr :=
  NewBrokkr [AddBackgroundTasks [critA]; SetForceStopTimeout (5 * Second)].
Definition twoCritical : Brokkr := NewBrokkr [AddBackgroundTasks [critA; critB]].

(** The goroutine of [Start] runs, undisturbed, from its first statement to
    [Wait] when there are [n] tasks. *)
Definition spawnAll (n : nat) : list Event := repeat EvMain (3 * n + 3).

Definition criticalAndPlain : Brokkr := NewBrokkr [AddBackgroundTasks [critA; taskB]].

(** One task; [Stop] is called once [Start] waits; the stop-unit wakes. *)
Definition stopThenWake : list Event :=
  spawnAll 1 ++ [EvStopCall; EvStopWake 0 (inl "u0")].

(** One critical task whose [OnStart] fails; the stop-unit wakes. *)
Definition failThenWake : list Event :=
  spawnAll 1 ++ [EvStartReturn 0 (Some (errorString "E")); EvStopWake 0 (inl "u0")].

(** Two tasks; [Stop] is called once [Start] waits; both stop-units wake. *)
Definition stopThenWakeBoth : list Event :=
  spawnAll 2 ++ [EvStopCall; EvStopWake 0 (inl "u0"); EvStopWake 1 (inl "u1")].

(** One task; [Stop]; the coordination unit returns; [OnStop] fails. *)
Definition stopThenFailingOnStop : list Event :=
  spawnAll 1 ++ [EvStopCall; EvCoordDone; EvStopWake 0 (inl "u0");
                 EvStopReturn 0 (Some (errorString "flush failed"));
                 EvStartReturn 0 None].

(** The same with SIGTERM in place of the call of [Stop]. *)
Definition signalThenFailingOnStop : list Event :=
  spawnAll 1 ++ [EvSignal SIGTERM; EvCoordSignal; EvStopWake 0 (inl "u0");
                 EvStopReturn 0 (Some (errorString "flush failed"));
                 EvStartReturn 0 None].

(** A critical and a plain task; SIGTERM; [OnStart] of the critical task
    returns [ctx.Err()]; [OnStop] of the plain task fails. *)
Definition signalThenCanceledStartThenFailingOnStop : list Event :=
  spawnAll 2 ++ [EvSignal SIGTERM; EvCoordSignal;
                 EvStartReturn 0 (Some Canceled);
                 EvStopWake 0 (inl "u0"); EvStopWake 1 (inl "u1");
                 EvStopReturn 0 None;
                 EvStopReturn 1 (Some (errorString "flush failed"));
                 EvStartReturn 1 None].

(** ** The two exported options, as data *)

(** [Options] is a function type; to speak about a list of options built from
    the two exported constructors, they are listed as data and mapped to the
    functions above. *)
Inductive Opt : Type :=
| OptTimeout (t : Duration)          (* SetForceStopTimeout(t) *)
| OptTasks (bt : list Process).      (* AddBackgroundTasks(bt...) *)

Definition toOptions (o : Opt) : Options :=
  match o with
  | OptTimeout t => SetForceStopTimeout t
  | OptTasks bt => AddBackgroundTasks bt
  end.

Definition tasksOf (o : Opt) : list Process :=
  match o with
  | OptTasks bt => bt
  | OptTimeout _ => []
  end.

(** The timeout in force after the options [os], starting from [d]. *)
Definition timeoutAfter (d : Duration) (os : list Opt) : Duration :=
  foldl (fun d o => match o with OptTimeout t => t | OptTasks _ => d end) d os.

(** ** Steps of the orchestrator and steps of its environment *)

(** The task bound to [task] in an iteration of the loop that is under way. *)
Definition currentTask (p : MainPC) : list Process :=
  match p with
  | PCGoStop task _ | PCGoStart task _ => [task]
  | _ => []
  end.

(** Steps taken by a goroutine of [Start], as opposed to calls of [Stop] from
    outside, signals and the clock. *)
Definition unitEvent (e : Event) : bool :=
  match e with
  | EvStopCall | EvSignal _ | EvTick _ => false
  | _ => true
  end.

Definition unitSteps (tr : list Event) : nat :=
  sum_list ((fun e => if unitEvent e then 1%nat else 0%nat) <$> tr).

(** ** What a stop context may report *)

(** [Err()] of a context with a deadline, when its parent [c.mainContext] is
    cancelled or not ([md]) and the clock shows [n]: nil only while the parent
    is live and the deadline ahead, [Canceled] only under a cancelled parent,
    [DeadlineExceeded] only from the deadline on, and nothing else. *)
Definition ctxSound (md : bool) (n : Z) (ctx : Context) (err : option error) : Prop :=
  exists dl,
    Deadline ctx = Some dl
    /\ match err with
       | None => md = false /\ n < dl
       | Some Canceled => md = true
       | Some DeadlineExceeded => dl <= n
       | Some _ => False
       end.

Definition unitSound (md : bool) (n : Z) (u : Process * StopPhase) : Prop :=
  match u with
  | (_, InStop ctx err) => ctxSound md n ctx err
  | _ => True
  end.


(** ** Where a returned error comes from *)

(** An entry of [submitted] is sound in [s] when the unit it names has
    returned: a stop-unit, the start-unit of a critical task, or the
    coordination unit, which returns nothing but [context.Canceled]. *)
Definition submissionSound (s : RunState) (ux : UnitId * error) : Prop :=
  match ux.1 with
  | UStop i => exists task, stopUnits s !! i = Some (task, StopReturned)
  | UStart i =>
      exists task,
        startUnits s !! i = Some (task, StartReturned)
        /\ IsCriticalToStop task = true
  | UCoord => ux.2 = Canceled /\ coordReturned s = true
  end.

(** * Properties *)

(** ** Configuration *)

Lemma NewBrokkr_snoc (opts : list Options) (o : Options) :
  NewBrokkr (opts ++ [o]) = o (NewBrokkr opts).
Proof. unfold NewBrokkr. by rewrite foldl_app. Qed.

(** C9. An orchestrator built with no options has a stop timeout of 60
    seconds and listens to exactly the interrupt, terminate and quit signals;
    [SetForceStopTimeout d] replaces the stop timeout by [d] and leaves the
    signals, the tasks and the cancellation root (the context and its cancel
    function) as they were, also when it is the last option given to
    [NewBrokkr]. *)
Theorem defaults_and_stop_timeout_option :
  stopTimeout (NewBrokkr []) = 60 * Second
  /\ 60 * Second = 60000000000
  /\ (forall sg : Signal,
        sg ∈ signals (NewBrokkr []) <-> sg = SIGINT \/ sg = SIGTERM \/ sg = SIGQUIT)
  /\ (forall (c : Brokkr) (d : Duration),
        stopTimeout (SetForceStopTimeout d c) = d
        /\ signals (SetForceStopTimeout d c) = signals c
        /\ backgroundTasks (SetForceStopTimeout d c) = backgroundTasks c
        /\ mainContext (SetForceStopTimeout d c) = mainContext c
        /\ mainContextCancel (SetForceStopTimeout d c) = mainContextCancel c)
  /\ (forall (opts : list Options) (d : Duration),
        NewBrokkr (opts ++ [SetForceStopTimeout d])
        = SetForceStopTimeout d (NewBrokkr opts)).
Proof.
  split; [reflexivity|]. split; [reflexivity|]. split.
  - intros sg. cbn. rewrite !elem_of_cons, elem_of_nil. tauto.
  - split; [done|]. intros. apply NewBrokkr_snoc.
Qed.

(** ** Elementary facts about one step *)

(** Opens [step s e = Some s'] into one goal per branch of the code. *)
Ltac step_inv H :=
  unfold step, stepMain, Stop, cancelMain in H;
  repeat case_match; simplify_eq/=.

Lemma submit_self u r s : self (submit u r s) = self s.
Proof. unfold submit. by destruct r. Qed.

Lemma submit_mainDone u r s : mainDone (submit u r s) = mainDone s.
Proof. unfold submit. by destruct r. Qed.

Lemma submit_pc u r s : pc (submit u r s) = pc s.
Proof. unfold submit. by destruct r. Qed.

Lemma submit_loopT u r s : loopT (submit u r s) = loopT s.
Proof. unfold submit. by destruct r. Qed.

Lemma submit_stopUnits u r s : stopUnits (submit u r s) = stopUnits s.
Proof. unfold submit. by destruct r. Qed.

Lemma submit_startUnits u r s : startUnits (submit u r s) = startUnits s.
Proof. unfold submit. by destruct r. Qed.

Lemma submit_coordReturned u r s : coordReturned (submit u r s) = coordReturned s.
Proof. unfold submit. by destruct r. Qed.

Lemma submit_stopCalls u r s : stopCalls (submit u r s) = stopCalls s.
Proof. unfold submit. by destruct r. Qed.

Lemma submit_now u r s : now (submit u r s) = now s.
Proof. unfold submit. by destruct r. Qed.

Lemma submit_groupErr u r s :
  groupErr (submit u r s)
  = match groupErr s with Some e0 => Some e0 | None => r end.
Proof. unfold submit. destruct r; simpl; by destruct (groupErr s). Qed.

Lemma submit_submitted u r s :
  submitted (submit u r s)
  = submitted s ++ match r with Some e => [(u, e)] | None => [] end.
Proof. unfold submit. destruct r; simpl; [done|]. by rewrite app_nil_r. Qed.

Create Rewrite HintDb brokkr.
#[global] Hint Rewrite submit_self submit_mainDone submit_pc submit_loopT
  submit_stopUnits submit_startUnits submit_coordReturned submit_stopCalls
  submit_now submit_groupErr submit_submitted : brokkr.

(** No step touches the configuration. *)
Lemma step_self s e s' : step s e = Some s' -> self s' = self s.
Proof. intros H. step_inv H; autorewrite with brokkr; done. Qed.

(** First error wins: once the slot is taken it never changes. *)
Lemma step_groupErr_pinned s e s' x :
  step s e = Some s' -> groupErr s = Some x -> groupErr s' = Some x.
Proof.
  intros H Hx. step_inv H; autorewrite with brokkr; simpl;
    rewrite ?Hx; try done; congruence.
Qed.

Lemma run_groupErr_pinned tr : forall s s' x,
  run tr s = Some s' -> groupErr s = Some x -> groupErr s' = Some x.
Proof.
  induction tr as [|e tr IH]; simpl; intros s s' x H Hx.
  - by simplify_eq.
  - destruct (step s e) as [s1|] eqn:E; [|done].
    eauto using step_groupErr_pinned.
Qed.

(** Cancellation is never undone. *)
Lemma step_mainDone_mono s e s' :
  step s e = Some s' -> mainDone s = true -> mainDone s' = true.
Proof.
  intros H Hd. step_inv H; autorewrite with brokkr; simpl; congruence.
Qed.

Lemma step_groupCtxDone_mono s e s' :
  step s e = Some s' -> groupCtxDone s = true -> groupCtxDone s' = true.
Proof.
  unfold groupCtxDone. intros H Hd.
  destruct (mainDone s) eqn:Hm.
  - by rewrite (step_mainDone_mono _ _ _ H Hm).
  - destruct (groupErr s) as [x|] eqn:Hg; [|done].
    rewrite (step_groupErr_pinned _ _ _ _ H Hg). by rewrite orb_true_r.
Qed.


(** ** The invariant *)

Lemma fst_cancelChild u : fst (cancelChild u) = fst u.
Proof. by destruct u as [task [|ctx [x|]|]]. Qed.

Lemma fst_expireChild n u : fst (expireChild n u) = fst u.
Proof.
  destruct u as [task [|ctx [x|]|]]; simpl; try done.
  destruct (Deadline ctx) as [d|]; [|done]. by case_match.
Qed.

Lemma fmap_fst_cancelChild (l : list (Process * StopPhase)) : fst <$> (cancelChild <$> l) = fst <$> l.
Proof.
  rewrite <- list_fmap_compose. apply list_fmap_ext.
  intros i u _. apply fst_cancelChild.
Qed.

Lemma fmap_fst_expireChild n (l : list (Process * StopPhase)) : fst <$> (expireChild n <$> l) = fst <$> l.
Proof.
  rewrite <- list_fmap_compose. apply list_fmap_ext.
  intros i u _. apply fst_expireChild.
Qed.

Lemma fmap_fst_insert {A} (l : list (Process * A)) i task ph ph' :
  l !! i = Some (task, ph) -> fst <$> <[i := (task, ph')]> l = fst <$> l.
Proof.
  intros H. rewrite list_fmap_insert. apply list_insert_id.
  by rewrite list_lookup_fmap, H.
Qed.

Lemma initState_Inv c : Inv (initState c).
Proof.
  constructor; simpl; try done; intros x Hx; by apply elem_of_nil in Hx.
Qed.

Lemma head_snoc {A} (l : list A) x :
  head (l ++ [x]) = match head l with Some y => Some y | None => Some x end.
Proof. by destruct l. Qed.

Lemma submit_Inv u r s :
  Inv s -> (u = UCoord -> r = None \/ r = Some Canceled) -> Inv (submit u r s).
Proof.
  intros [H1 H2 H3 H4 H5 H6] Hu. unfold submit. destruct r as [e|]; [|by constructor].
  constructor; simpl; try done.
  - rewrite fmap_app. change ([(u, e)].*2) with [e].
    rewrite head_snoc, <- H4. by destruct (groupErr s).
  - intros x. rewrite elem_of_app, list_elem_of_singleton.
    intros [Hx|Hx]; [by apply H5|]. simplify_eq.
    destruct Hu as [?|?]; by simplify_eq.
Qed.

Lemma step_Inv s e s' : Inv s -> step s e = Some s' -> Inv s'.
Proof.
  intros HI H. pose proof HI as [H1 H2 H3 H4 H5 HC].
  step_inv H.
  all: try (apply submit_Inv; [|intros ?; simplify_eq; by (left + right)]).
  all: constructor; simpl; rewrite ?fmap_app, ?fmap_fst_cancelChild,
         ?fmap_fst_expireChild, <- ?app_assoc; simpl; try done.
  all: try (erewrite fmap_fst_insert by eassumption); try done.
  all: try (intros k Hk; by apply lookup_app_l_Some, HC).
  all: try (intros k [Hk| ->%list_elem_of_singleton]%elem_of_app; simpl;
            [by apply HC | by rewrite list_lookup_fmap; simplify_option_eq]).
  all: try (intros Hl; try congruence; apply H3 in Hl as [Hs Hp];
            rewrite ?Hs in *; simplify_eq/=;
            first [by (split; [done|by intros]) | by exfalso; eapply Hp]).
Qed.

Lemma run_Inv tr : forall s s', Inv s -> run tr s = Some s' -> Inv s'.
Proof.
  induction tr as [|e tr IH]; simpl; intros s s' HI H; [by simplify_eq|].
  destruct (step s e) as [s1|] eqn:E; [|done]. eauto using step_Inv.
Qed.

Lemma run_self tr : forall s s', run tr s = Some s' -> self s' = self s.
Proof.
  induction tr as [|e tr IH]; simpl; intros s s' H; [by simplify_eq|].
  destruct (step s e) as [s1|] eqn:E; [|done].
  rewrite (IH _ _ H). eauto using step_self.
Qed.

(** Every state of a run of [Start] on [c] satisfies the invariant. *)
Lemma reachable_Inv c tr s : run tr (initState c) = Some s -> Inv s.
Proof. apply run_Inv, initState_Inv. Qed.

Lemma reachable_self c tr s : run tr (initState c) = Some s -> self s = c.
Proof. intros H. by rewrite (run_self _ _ _ H). Qed.

(** ** Start returns once cancellation has been requested *)

Lemma sum_list_insert {A} (w : A -> nat) (l : list A) i x y :
  l !! i = Some x ->
  (sum_list (w <$> <[i := y]> l) + w x = sum_list (w <$> l) + w y)%nat.
Proof.
  revert i. induction l as [|a l IH]; intros [|i] H; simplify_eq/=; [lia|].
  specialize (IH _ H). lia.
Qed.

Lemma forallb_false_lookup {A} (f : A -> bool) (l : list A) :
  forallb f l = false -> exists i x, l !! i = Some x /\ f x = false.
Proof.
  induction l as [|a l IH]; simpl; [done|].
  destruct (f a) eqn:E; simpl.
  - intros H. destruct (IH H) as (i & x & ? & ?). by exists (S i), x.
  - intros _. by exists 0%nat, a.
Qed.

(** In a state where cancellation has been requested and [Start] has not yet
    returned, some goroutine can take a step that returns no error of its
    own; each such step uses up work. *)
Lemma progress s :
  Inv s -> groupCtxDone s = true -> terminated s = false ->
  exists e s',
    step s e = Some s'
    /\ (workLeft s' < workLeft s)%nat
    /\ filterCanceled (groupErr s') = filterCanceled (groupErr s)
    /\ (forall u x, (u, x) ∈ submitted s' -> (u, x) ∈ submitted s \/ u = UCoord).
Proof.
  intros HI Hd Ht. unfold terminated in Ht.
  destruct (decide (pc s = PCWait)) as [Hpc|Hpc].
  - rewrite bool_decide_eq_true_2 in Ht by done. simpl in Ht.
    destruct (coordReturned s) eqn:Hc; simpl in Ht.
    + destruct (forallb stopUnitDone (stopUnits s)) eqn:Hs; simpl in Ht.
      * (* a start-unit is still running *)
        apply forallb_false_lookup in Ht as (i & [task ph] & Hi & Hph).
        destruct ph; [|done].
        exists (EvStartReturn i None). eexists. simpl. rewrite Hi.
        split; [done|]. autorewrite with brokkr. simpl.
        split; [|split; [by destruct (groupErr s)|]].
        -- unfold workLeft. autorewrite with brokkr. simpl.
           pose proof (sum_list_insert startWeight _ _ _ (task, StartReturned) Hi).
           simpl in *. lia.
        -- rewrite app_nil_r. auto.
      * (* a stop-unit has not returned *)
        apply forallb_false_lookup in Hs as (i & [task ph] & Hi & Hph).
        destruct ph as [|ctx err|]; [| |done].
        -- destruct (loopT s) as [t|] eqn:Hl.
           2:{ destruct (inv_loopT _ HI Hl) as [Hnil _].
               rewrite Hnil in Hi. done. }
           exists (EvStopWake i (inl "")). eexists. simpl.
           rewrite Hi, Hd, Hl. split; [done|]. simpl.
           split; [|split; [done|auto]].
           unfold workLeft. simpl.
           pose proof (sum_list_insert stopWeight _ _ _
             (task, InStop
                (WithTimeout (now s) (createChildContext (self s) "" (GetName t))
                   (stopTimeout (self s)))
                (freshErr s
                   (WithTimeout (now s) (createChildContext (self s) "" (GetName t))
                      (stopTimeout (self s))))) Hi).
           simpl in *. lia.
        -- exists (EvStopReturn i None). eexists. simpl. rewrite Hi.
           split; [done|]. autorewrite with brokkr. simpl.
           split; [|split; [by destruct (groupErr s)|]].
           ++ unfold workLeft. autorewrite with brokkr. simpl.
              pose proof (sum_list_insert stopWeight _ _ _ (task, StopReturned) Hi).
              simpl in *. lia.
           ++ rewrite app_nil_r. auto.
    + (* the coordination unit sees the context done *)
      exists EvCoordDone. eexists. simpl. unfold coordRunning.
      rewrite bool_decide_eq_true_2 by done. rewrite Hc, Hd. simpl.
      split; [done|]. autorewrite with brokkr. simpl.
      split; [|split].
      * unfold workLeft. autorewrite with brokkr. simpl. rewrite Hc. lia.
      * by destruct (groupErr s).
      * intros u x. rewrite elem_of_app, list_elem_of_singleton.
        intros [?|?]; [by left|right; congruence].
  - (* the goroutine of Start has statements left *)
    exists EvMain. simpl. unfold stepMain.
    destruct (pc s) as [[|t rest]|task rest|task rest| | |] eqn:E; try done;
      eexists; (split; [done|]); simpl; (split; [|split; [done|auto]]);
      unfold workLeft; simpl; rewrite ?E, ?fmap_app, ?sum_list_with_app;
      simpl; rewrite ?sum_list_app; simpl; lia.
Qed.

Lemma completion_aux n : forall s,
  (workLeft s <= n)%nat -> Inv s -> groupCtxDone s = true ->
  exists tr s',
    run tr s = Some s'
    /\ StartResult s' = Some (filterCanceled (groupErr s))
    /\ (forall u x, (u, x) ∈ submitted s' -> (u, x) ∈ submitted s \/ u = UCoord).
Proof.
  induction n as [|n IH]; intros s Hn HI Hd.
  all: destruct (terminated s) eqn:Ht;
    [exists [], s; unfold StartResult; rewrite Ht; auto|].
  all: destruct (progress s HI Hd Ht) as (e & s1 & Hs & Hw & Hf & Hsub).
  { lia. }
  destruct (IH s1) as (tr & s' & Hr & Hres & Hsub');
    [lia|by eapply step_Inv|by eapply step_groupCtxDone_mono|].
  exists (e :: tr), s'. simpl. rewrite Hs. split; [done|].
  split; [by rewrite Hres, Hf|].
  intros u x Hx. destruct (Hsub' _ _ Hx) as [?|?]; auto.
Qed.

(** Once the group's context is done, the remaining goroutines can all run
    to their end, and [Start] then returns what the error slot holds now,
    filtered. *)
Lemma completion s :
  Inv s -> groupCtxDone s = true ->
  exists tr s',
    run tr s = Some s'
    /\ StartResult s' = Some (filterCanceled (groupErr s))
    /\ (forall u x, (u, x) ∈ submitted s' -> (u, x) ∈ submitted s \/ u = UCoord).
Proof. intros. by eapply completion_aux. Qed.

(** ** What Start returns *)

Lemma StartResult_Some s r :
  StartResult s = Some r -> r = filterCanceled (groupErr s).
Proof. unfold StartResult. case_match; congruence. Qed.

(** [Start] returns the first error that reached the group, unless that
    error is a cancellation. *)
Lemma StartResult_first_submitted s r :
  Inv s -> StartResult s = Some r ->
  r = filterCanceled (head (snd <$> submitted s)).
Proof. intros HI H. rewrite <- (inv_slot _ HI). by apply StartResult_Some. Qed.

(** When the start- and stop-units have returned nothing but cancellations,
    the filtered slot is empty. *)
Lemma clean_slot s :
  Inv s ->
  (forall u x, (u, x) ∈ submitted s -> u <> UCoord -> errors_Is x Canceled = true) ->
  filterCanceled (groupErr s) = None.
Proof.
  intros HI Hc. rewrite (inv_slot _ HI).
  destruct (submitted s) as [|[u x] l] eqn:E; simpl; [done|].
  assert (errors_Is x Canceled = true) as ->; [|done].
  destruct (decide (u = UCoord)) as [->|Hu].
  - rewrite (inv_coord _ HI x); [done|]. rewrite E. left.
  - apply (Hc u); [|done]. left.
Qed.

(** [c.mainContext] is cancelled by [Stop] only: called from outside, or by
    the coordination unit on a signal. *)
Lemma mainDone_cause s e s' :
  step s e = Some s' -> mainDone s = false -> mainDone s' = true ->
  e = EvStopCall \/ e = EvCoordSignal.
Proof.
  intros H H0 H1. destruct e; auto; exfalso;
    step_inv H; autorewrite with brokkr in H1; simpl in H1; congruence.
Qed.

(** C1. Take any run of [Start] in which shutdown has been requested through
    [Stop] (called directly, or by the coordination unit on an OS signal, the
    only two ways [c.mainContext] gets cancelled) and in which no start-unit
    and no stop-unit has returned an error other than a cancellation.  If
    [Start] has returned, it returned nil; if not, the goroutines left can run
    to their end without any unit returning a further error of its own, and
    [Start] then returns nil. *)
Theorem graceful_shutdown_returns_nil c tr s :
  run tr (initState c) = Some s ->
  mainDone s = true ->
  (forall u x, (u, x) ∈ submitted s -> u <> UCoord -> errors_Is x Canceled = true) ->
  (forall r, StartResult s = Some r -> r = None)
  /\ exists tr' s',
       run tr' s = Some s'
       /\ StartResult s' = Some None
       /\ (forall u x, (u, x) ∈ submitted s' -> u <> UCoord ->
             errors_Is x Canceled = true).
Proof.
  intros Hrun Hd Hc. pose proof (reachable_Inv _ _ _ Hrun) as HI.
  pose proof (clean_slot s HI Hc) as Hf. split.
  - intros r Hr. apply StartResult_Some in Hr. congruence.
  - destruct (completion s HI) as (tr' & s' & Hr & Hres & Hsub).
    { unfold groupCtxDone. by rewrite Hd. }
    exists tr', s'. split; [done|]. split; [congruence|].
    intros u x Hx Hu. destruct (Hsub _ _ Hx) as [?|?]; [eauto|done].
Qed.

Lemma graceful_shutdown_returns_nil_witness :
  run (spawnAll 1 ++ [EvStopCall]) (initState oneTask)
  = Some (stateAfter oneTask (spawnAll 1 ++ [EvStopCall]))
  /\ mainDone (stateAfter oneTask (spawnAll 1 ++ [EvStopCall])) = true
  /\ ((forall r,
         StartResult (stateAfter oneTask (spawnAll 1 ++ [EvStopCall])) = Some r ->
         r = None)
      /\ exists tr' s',
           run tr' (stateAfter oneTask (spawnAll 1 ++ [EvStopCall])) = Some s'
           /\ StartResult s' = Some None
           /\ (forall u x, (u, x) ∈ submitted s' -> u <> UCoord ->
                 errors_Is x Canceled = true)).
Proof.
  split; [vm_compute; reflexivity|]. split; [vm_compute; reflexivity|].
  apply (graceful_shutdown_returns_nil oneTask (spawnAll 1 ++ [EvStopCall]));
    [vm_compute; reflexivity|vm_compute; reflexivity|].
  assert (submitted (stateAfter oneTask (spawnAll 1 ++ [EvStopCall])) = []) as ->
    by (vm_compute; reflexivity).
  intros u x Hx. by apply elem_of_nil in Hx.
Defined.

(** ** Start-units *)

Lemma startUnit_task s i task ph :
  Inv s -> startUnits s !! i = Some (task, ph) ->
  backgroundTasks (self s) !! i = Some task.
Proof.
  intros HI H. rewrite <- (inv_starts _ HI). apply lookup_app_l_Some.
  by rewrite list_lookup_fmap, H.
Qed.

(** [Stop] cancels [c.mainContext] when the orchestrator holds the cancel
    function of that context, as [NewBrokkr] arranges. *)
Lemma Stop_mainDone s :
  mainContextCancel (self s) = Some (cancelOf (mainContext (self s))) ->
  mainDone (fst (Stop s)) = true.
Proof.
  intros H. unfold Stop, cancelMain. rewrite H. simpl.
  rewrite decide_True by done. by destruct (mainDone s) eqn:E.
Qed.

Lemma Stop_groupErr s : groupErr (fst (Stop s)) = groupErr s.
Proof. unfold Stop, cancelMain. simpl. by repeat case_match. Qed.

(** C3. When [OnStart] of a non-critical task returns an error, the start-unit
    returns nil: the step is the very step of an [OnStart] that returned nil.
    The error slot, the record of what the units returned, both contexts, all
    stop-units and all other start-units are as before; and if no error had
    reached the group, a later [Stop] lets [Start] return nil. *)
Theorem noncritical_start_error_is_discarded c tr s i task e :
  run tr (initState c) = Some s ->
  startUnits s !! i = Some (task, Running) ->
  IsCriticalToStop task = false ->
  exists s',
    step s (EvStartReturn i (Some e)) = Some s'
    /\ step s (EvStartReturn i None) = Some s'
    /\ backgroundTasks c !! i = Some task
    /\ groupErr s' = groupErr s
    /\ submitted s' = submitted s
    /\ mainDone s' = mainDone s
    /\ groupCtxDone s' = groupCtxDone s
    /\ stopUnits s' = stopUnits s
    /\ (forall j, j <> i -> startUnits s' !! j = startUnits s !! j)
    /\ (groupErr s = None ->
        mainContextCancel c = Some (cancelOf (mainContext c)) ->
        exists tr' s'',
          run (EvStopCall :: tr') s' = Some s'' /\ StartResult s'' = Some None).
Proof.
  intros Hrun Hi Hc.
  pose proof (reachable_Inv _ _ _ Hrun) as HI.
  pose proof (reachable_self _ _ _ Hrun) as Hself.
  eexists. simpl. rewrite Hi. simpl. rewrite Hc.
  split; [reflexivity|]. split; [reflexivity|].
  split; [rewrite <- Hself; by eapply startUnit_task|].
  unfold submit. simpl. do 5 (split; [done|]).
  split; [intros j Hj; by apply list_lookup_insert_ne|].
  intros Hg Hcancel.
  set (s' := setStartUnits _ s).
  assert (Hs' : step s (EvStartReturn i None) = Some s').
  { simpl. by rewrite Hi. }
  assert (HI' : Inv s') by (by eapply step_Inv).
  assert (HI1 : Inv (fst (Stop s'))) by (by apply (step_Inv s' EvStopCall)).
  destruct (completion (fst (Stop s')) HI1) as (tr' & s'' & Hr & Hres & _).
  { unfold groupCtxDone. rewrite Stop_mainDone; [done|].
    change (self s') with (self s). by rewrite Hself. }
  exists tr', s''. split; [done|].
  rewrite Hres, Stop_groupErr. change (groupErr s') with (groupErr s).
  by rewrite Hg.
Qed.

Lemma noncritical_start_error_is_discarded_witness :
  run (spawnAll 1) (initState oneTask) = Some (stateAfter oneTask (spawnAll 1))
  /\ startUnits (stateAfter oneTask (spawnAll 1)) !! 0%nat = Some (taskA, Running)
  /\ IsCriticalToStop taskA = false
  /\ exists s',
       step (stateAfter oneTask (spawnAll 1))
            (EvStartReturn 0 (Some (errorString "E"))) = Some s'
       /\ groupErr s' = None
       /\ submitted s' = []
       /\ exists tr' s'',
            run (EvStopCall :: tr') s' = Some s'' /\ StartResult s'' = Some None.
Proof.
  split; [vm_compute; reflexivity|]. split; [vm_compute; reflexivity|].
  split; [reflexivity|].
  destruct (noncritical_start_error_is_discarded oneTask (spawnAll 1)
              (stateAfter oneTask (spawnAll 1)) 0%nat taskA (errorString "E"))
    as (s' & H1 & _ & _ & H2 & H3 & _ & _ & _ & _ & H4);
    [vm_compute; reflexivity|vm_compute; reflexivity|reflexivity|].
  exists s'. split; [exact H1|]. split; [exact H2|]. split; [exact H3|].
  apply H4; vm_compute; reflexivity.
Defined.

(** The step of a critical start-unit whose [OnStart] returned an error while
    the slot was free: the error takes the slot and the group's context is
    done; [c.mainContext] is left alone. *)
Lemma critical_failure_step s i task e :
  startUnits s !! i = Some (task, Running) ->
  IsCriticalToStop task = true ->
  exists s',
    step s (EvStartReturn i (Some e)) = Some s'
    /\ groupErr s' = match groupErr s with Some e0 => Some e0 | None => Some e end
    /\ groupCtxDone s' = true
    /\ mainDone s' = mainDone s
    /\ stopUnits s' = stopUnits s
    /\ loopT s' = loopT s.
Proof.
  intros Hi Hc. eexists. simpl. rewrite Hi. simpl. rewrite Hc.
  split; [reflexivity|]. unfold groupCtxDone, submit. simpl.
  repeat split. destruct (groupErr s); apply orb_true_r.
Qed.

(** Once the group's context is done, a stop-unit still waiting can wake,
    whatever [uuid.NewUUID] gives it. *)
Lemma waiting_stop_unit_can_wake s j t u :
  Inv s -> groupCtxDone s = true -> stopUnits s !! j = Some (t, Waiting) ->
  is_Some (step s (EvStopWake j u)).
Proof.
  intros HI Hd Hj. simpl. rewrite Hj, Hd.
  destruct u as [id|err]; [|done].
  destruct (loopT s) as [t0|] eqn:Hl; [done|].
  destruct (inv_loopT _ HI Hl) as [Hnil _]. by rewrite Hnil in Hj.
Qed.

(** With the slot taken by [x], every way the run can go on ends with [Start]
    returning [x] filtered, and there is a way for it to go on to that end. *)
Lemma result_decided s x :
  Inv s -> groupErr s = Some x ->
  (forall tr s' r, run tr s = Some s' -> StartResult s' = Some r ->
     r = filterCanceled (Some x))
  /\ exists tr s', run tr s = Some s' /\ StartResult s' = Some (filterCanceled (Some x)).
Proof.
  intros HI Hg. split.
  - intros tr s' r Hr Hres. apply StartResult_Some in Hres.
    by rewrite (run_groupErr_pinned _ _ _ _ Hr Hg) in Hres.
  - destruct (completion s HI) as (tr & s' & Hr & Hres & _).
    { unfold groupCtxDone. rewrite Hg. apply orb_true_r. }
    exists tr, s'. by rewrite <- Hg.
Qed.

(** C10. A critical task whose [OnStart] returns an error [e] with
    [errors.Is(e, context.Canceled)], while no error has reached the group
    yet: [e] takes the error slot and so cancels the group's context, which
    shuts the orchestrator down; however the run goes on, [Start] returns
    nil, and it can go on until [Start] returns. *)
Theorem critical_cancellation_error_is_filtered c tr s i task e :
  run tr (initState c) = Some s ->
  startUnits s !! i = Some (task, Running) ->
  IsCriticalToStop task = true ->
  errors_Is e Canceled = true ->
  groupErr s = None ->
  exists s',
    step s (EvStartReturn i (Some e)) = Some s'
    /\ backgroundTasks c !! i = Some task
    /\ groupErr s' = Some e
    /\ groupCtxDone s' = true
    /\ (forall tr' s'' r,
          run tr' s' = Some s'' -> StartResult s'' = Some r -> r = None)
    /\ exists tr' s'', run tr' s' = Some s'' /\ StartResult s'' = Some None.
Proof.
  intros Hrun Hi Hc He Hg.
  pose proof (reachable_Inv _ _ _ Hrun) as HI.
  pose proof (reachable_self _ _ _ Hrun) as Hself.
  destruct (critical_failure_step s i task e Hi Hc)
    as (s' & Hs & Hg' & Hd & _).
  rewrite Hg in Hg'.
  exists s'. split; [done|].
  split; [rewrite <- Hself; by eapply startUnit_task|].
  do 2 (split; [done|]).
  assert (HI' : Inv s') by (by eapply step_Inv).
  destruct (result_decided s' e HI' Hg') as [Hall Hex].
  simpl in Hall, Hex. rewrite He in Hall, Hex. by split.
Qed.

Lemma critical_cancellation_error_is_filtered_witness :
  run (spawnAll 1) (initState oneCritical)
  = Some (stateAfter oneCritical (spawnAll 1))
  /\ startUnits (stateAfter oneCritical (spawnAll 1)) !! 0%nat = Some (critA, Running)
  /\ IsCriticalToStop critA = true
  /\ errors_Is (wrapError "serve: context canceled" Canceled) Canceled = true
  /\ groupErr (stateAfter oneCritical (spawnAll 1)) = None
  /\ exists s',
       step (stateAfter oneCritical (spawnAll 1))
            (EvStartReturn 0 (Some (wrapError "serve: context canceled" Canceled)))
       = Some s'
       /\ groupCtxDone s' = true
       /\ exists tr' s'', run tr' s' = Some s'' /\ StartResult s'' = Some None.
Proof.
  do 5 (split; [vm_compute; reflexivity|]).
  destruct (critical_cancellation_error_is_filtered oneCritical (spawnAll 1)
              (stateAfter oneCritical (spawnAll 1)) 0%nat critA
              (wrapError "serve: context canceled" Canceled))
    as (s' & H1 & _ & _ & H2 & _ & H3);
    [vm_compute; reflexivity..|].
  exists s'. split; [exact H1|]. split; [exact H2|exact H3].
Defined.

(** C2 (as the code has it). A critical task whose [OnStart] returns an error
    [e] that is not a cancellation: the group's context is done after that
    step, so every stop-unit still waiting can wake and begin its stop phase;
    and when [e] is the first error to reach the group, [Start] returns [e]
    however the run goes on, and it can go on until [Start] returns. *)
Theorem critical_start_failure c tr s i task e :
  run tr (initState c) = Some s ->
  startUnits s !! i = Some (task, Running) ->
  IsCriticalToStop task = true ->
  errors_Is e Canceled = false ->
  exists s',
    step s (EvStartReturn i (Some e)) = Some s'
    /\ backgroundTasks c !! i = Some task
    /\ groupCtxDone s' = true
    /\ (forall j t u, stopUnits s' !! j = Some (t, Waiting) ->
          is_Some (step s' (EvStopWake j u)))
    /\ (groupErr s = None ->
        groupErr s' = Some e
        /\ (forall tr' s'' r,
              run tr' s' = Some s'' -> StartResult s'' = Some r -> r = Some e)
        /\ exists tr' s'', run tr' s' = Some s'' /\ StartResult s'' = Some (Some e)).
Proof.
  intros Hrun Hi Hc He.
  pose proof (reachable_Inv _ _ _ Hrun) as HI.
  pose proof (reachable_self _ _ _ Hrun) as Hself.
  destruct (critical_failure_step s i task e Hi Hc)
    as (s' & Hs & Hg' & Hd & _).
  assert (HI' : Inv s') by (by eapply step_Inv).
  exists s'. split; [done|].
  split; [rewrite <- Hself; by eapply startUnit_task|].
  split; [done|].
  split; [intros j t u Hj; by eapply waiting_stop_unit_can_wake|].
  intros Hg. rewrite Hg in Hg'. split; [done|].
  destruct (result_decided s' e HI' Hg') as [Hall Hex].
  simpl in Hall, Hex. rewrite He in Hall, Hex. by split.
Qed.

Lemma critical_start_failure_witness :
  run (spawnAll 1) (initState oneCritical)
  = Some (stateAfter oneCritical (spawnAll 1))
  /\ startUnits (stateAfter oneCritical (spawnAll 1)) !! 0%nat = Some (critA, Running)
  /\ IsCriticalToStop critA = true
  /\ errors_Is (errorString "listen: address in use") Canceled = false
  /\ exists s',
       step (stateAfter oneCritical (spawnAll 1))
            (EvStartReturn 0 (Some (errorString "listen: address in use")))
       = Some s'
       /\ groupCtxDone s' = true
       /\ exists tr' s'',
            run tr' s' = Some s''
            /\ StartResult s'' = Some (Some (errorString "listen: address in use")).
Proof.
  do 4 (split; [vm_compute; reflexivity|]).
  destruct (critical_start_failure oneCritical (spawnAll 1)
              (stateAfter oneCritical (spawnAll 1)) 0%nat critA
              (errorString "listen: address in use"))
    as (s' & H1 & _ & H2 & _ & H3);
    [vm_compute; reflexivity..|].
  exists s'. split; [exact H1|]. split; [exact H2|].
  apply H3. vm_compute; reflexivity.
Defined.

(** C2 does not hold for every critical failure: with two critical tasks
    whose [OnStart] return different errors one after the other, [Start]
    returns the first error and not the second, although the second task is
    critical and its error is no cancellation. *)
Lemma critical_start_failure_not_always_returned :
  ~ (forall c tr s i task e r,
       run tr (initState c) = Some s ->
       backgroundTasks c !! i = Some task ->
       IsCriticalToStop task = true ->
       errors_Is e Canceled = false ->
       EvStartReturn i (Some e) ∈ tr ->
       StartResult s = Some r ->
       r = Some e).
Proof.
  intros H.
  specialize (H twoCritical
    (spawnAll 2 ++
     [EvStartReturn 0 (Some (errorString "E1"));
      EvStartReturn 1 (Some (errorString "E2"));
      EvCoordDone;
      EvStopWake 0 (inl "u0"); EvStopWake 1 (inl "u1");
      EvStopReturn 0 None; EvStopReturn 1 None])
    (stateAfter twoCritical
       (spawnAll 2 ++
        [EvStartReturn 0 (Some (errorString "E1"));
         EvStartReturn 1 (Some (errorString "E2"));
         EvCoordDone;
         EvStopWake 0 (inl "u0"); EvStopWake 1 (inl "u1");
         EvStopReturn 0 None; EvStopReturn 1 None]))
    1%nat critB (errorString "E2") (Some (errorString "E1"))).
  assert (Some (errorString "E1") = Some (errorString "E2")) as Habs; [|done].
  apply H; try (vm_compute; reflexivity).
  vm_compute. by repeat constructor.
Qed.

(** ** How often OnStop is called *)

Lemma stopCallsOf_snoc i s k :
  stopCallsOf i (addStopCall k s)
  = (stopCallsOf i s + if decide (callUnit k = i) then 1 else 0)%nat.
Proof.
  unfold stopCallsOf. simpl. rewrite list.filter_app, length_app. f_equal.
  rewrite list.filter_cons, list.filter_nil. by case_decide.
Qed.

(** Each call of [OnStop] by unit [i] comes from one waking of that unit in
    which [uuid.NewUUID] succeeded. *)
Lemma step_stopCallsOf i s e s' :
  step s e = Some s' -> stopCallsOf i s' = (stopCallsOf i s + wakeOk i e)%nat.
Proof.
  intros H. destruct e; simpl wakeOk.
  all: try (step_inv H; unfold stopCallsOf; autorewrite with brokkr; simpl; lia).
  step_inv H; try (unfold stopCallsOf; autorewrite with brokkr; simpl; lia).
  all: rewrite stopCallsOf_snoc; simpl; case_decide; try done;
    by unfold stopCallsOf.
Qed.

Lemma run_stopCallsOf i tr : forall s s',
  run tr s = Some s' -> stopCallsOf i s' = (stopCallsOf i s + uuidOks i tr)%nat.
Proof.
  unfold uuidOks.
  induction tr as [|e tr IH]; intros s s' H; simpl in H.
  { simplify_eq. simpl. lia. }
  destruct (step s e) as [s1|] eqn:E; [|done].
  rewrite (IH _ _ H), (step_stopCallsOf i _ _ _ E).
  change (sum_list (wakeOk i <$> e :: tr))
    with (wakeOk i e + sum_list (wakeOk i <$> tr))%nat.
  lia.
Qed.

Lemma phaseNotWoken_cancelChild o :
  phaseNotWoken (cancelChild <$> o) = phaseNotWoken o.
Proof. by destruct o as [[task [|ctx [x|]|]]|]. Qed.

Lemma phaseNotWoken_expireChild n o :
  phaseNotWoken (expireChild n <$> o) = phaseNotWoken o.
Proof.
  destruct o as [[task [|ctx [x|]|]]|]; simpl; try done.
  destruct (Deadline ctx) as [d|]; [|done]. by destruct (d <=? n).
Qed.

Lemma phaseNotWoken_snoc (l : list (Process * StopPhase)) task i :
  phaseNotWoken ((l ++ [(task, Waiting)]) !! i) = phaseNotWoken (l !! i).
Proof.
  destruct (decide (i < length l)%nat) as [Hi|Hi].
  - by rewrite lookup_app_l.
  - rewrite lookup_app_r by lia. rewrite (lookup_ge_None_2 l i) by lia.
    by destruct (i - length l)%nat as [|[|n]].
Qed.

(** A stop-unit passes [<-TaskErrorGroupCtx.Done()] once: the step in which
    it wakes is the one step that takes it out of the waiting phase. *)
Lemma step_notWoken i s e s' :
  step s e = Some s' ->
  (wakeOk i e + wakeFault i e + notWoken i s' = notWoken i s)%nat.
Proof.
  unfold notWoken. intros H.
  destruct e; simpl wakeOk; simpl wakeFault.
  all: step_inv H; autorewrite with brokkr; simpl;
    rewrite ?list_lookup_fmap, ?phaseNotWoken_cancelChild,
      ?phaseNotWoken_expireChild, ?phaseNotWoken_snoc; try done.
  all: try case_decide; subst; simpl.
  all: try (rewrite list_lookup_insert_ne by done; done).
  all: try (rewrite list_lookup_insert_eq by (by eapply lookup_lt_Some)).
  all: try match goal with H : stopUnits _ !! _ = _ |- _ => rewrite H end;
    try done.
  match goal with
  | H : stopUnits _ !! ?j = Some _ |- _ =>
      destruct (decide (j = i)) as [->|Hne];
      [rewrite list_lookup_insert_eq by (by eapply lookup_lt_Some); by rewrite H
      |by rewrite list_lookup_insert_ne]
  end.
Qed.

Lemma run_notWoken i tr : forall s s',
  run tr s = Some s' ->
  (uuidOks i tr + uuidFaults i tr + notWoken i s' = notWoken i s)%nat.
Proof.
  unfold uuidOks, uuidFaults.
  induction tr as [|e tr IH]; intros s s' H; simpl in H; [by simplify_eq|].
  destruct (step s e) as [s1|] eqn:E; [|done].
  pose proof (IH _ _ H). pose proof (step_notWoken i _ _ _ E).
  change (sum_list (wakeOk i <$> e :: tr))
    with (wakeOk i e + sum_list (wakeOk i <$> tr))%nat.
  change (sum_list (wakeFault i <$> e :: tr))
    with (wakeFault i e + sum_list (wakeFault i <$> tr))%nat.
  lia.
Qed.

(** In a run of [Start], unit [i] has called [OnStop] as often as it woke
    with a fresh UUID; wakings with and without one, and the waiting still to
    be done, add up to one. *)
Lemma stop_calls_account c tr s i :
  run tr (initState c) = Some s ->
  stopCallsOf i s = uuidOks i tr
  /\ (uuidOks i tr + uuidFaults i tr + notWoken i s = 1)%nat.
Proof.
  intros H. split.
  - by rewrite (run_stopCallsOf i _ _ _ H).
  - by rewrite (run_notWoken i _ _ _ H).
Qed.

Lemma forallb_lookup {A} (f : A -> bool) (l : list A) i x :
  forallb f l = true -> l !! i = Some x -> f x = true.
Proof.
  rewrite forallb_forall. intros H Hi. apply H.
  apply list_elem_of_In. by eapply list_elem_of_lookup_2.
Qed.

(** When [Start] has returned, every task has its stop-unit, and that unit
    has returned. *)
Lemma terminated_stop_unit s i task :
  Inv s -> terminated s = true -> backgroundTasks (self s) !! i = Some task ->
  stopUnits s !! i = Some (task, StopReturned).
Proof.
  intros HI Ht Hi. unfold terminated in Ht.
  apply andb_prop in Ht as [Ht _]. apply andb_prop in Ht as [Ht Hs].
  apply andb_prop in Ht as [Hpc _]. apply bool_decide_eq_true in Hpc.
  pose proof (inv_stops _ HI) as Hst. rewrite Hpc in Hst. simpl in Hst.
  rewrite app_nil_r in Hst. rewrite <- Hst, list_lookup_fmap in Hi.
  destruct (stopUnits s !! i) as [[t ph]|] eqn:E; simplify_eq/=.
  pose proof (forallb_lookup _ _ _ _ Hs E) as Hd. by destruct ph.
Qed.

(** C6 (as the code has it). In every run of [Start], a stop-unit calls
    [OnStop] at most once, and each call is made on the task the unit was
    spawned for.  When [Start] has returned, the calls of [OnStop] for a task
    and the failures of [uuid.NewUUID] in its stop-unit add up to one: the
    task was stopped exactly once unless its stop-unit could not get a UUID,
    in which case [OnStop] was not called for it. *)
Theorem onStop_called_once_unless_uuid_fails c tr s i :
  run tr (initState c) = Some s ->
  (stopCallsOf i s <= 1)%nat
  /\ (forall k, k ∈ stopCalls s ->
        backgroundTasks c !! callUnit k = Some (callTask k))
  /\ (forall r task,
        StartResult s = Some r -> backgroundTasks c !! i = Some task ->
        (stopCallsOf i s + uuidFaults i tr = 1)%nat).
Proof.
  intros Hrun.
  pose proof (reachable_Inv _ _ _ Hrun) as HI.
  pose proof (reachable_self _ _ _ Hrun) as Hself.
  destruct (stop_calls_account c tr s i Hrun) as [Hc Hacc].
  split; [lia|]. split.
  - intros k Hk. rewrite <- Hself, <- (inv_stops _ HI).
    apply lookup_app_l_Some. by apply (inv_calls _ HI).
  - intros r task Hr Hi. unfold StartResult in Hr.
    destruct (terminated s) eqn:Ht; [|done].
    rewrite <- Hself in Hi.
    pose proof (terminated_stop_unit s i task HI Ht Hi) as Hu.
    unfold notWoken in Hacc. rewrite Hu in Hacc. simpl in Hacc. lia.
Qed.

Lemma onStop_called_once_unless_uuid_fails_witness :
  run (spawnAll 1 ++ [EvStopCall; EvCoordDone; EvStopWake 0 (inl "u0");
                      EvStopReturn 0 None; EvStartReturn 0 None])
      (initState oneTask)
  = Some (stateAfter oneTask
            (spawnAll 1 ++ [EvStopCall; EvCoordDone; EvStopWake 0 (inl "u0");
                            EvStopReturn 0 None; EvStartReturn 0 None]))
  /\ (stopCallsOf 0
        (stateAfter oneTask
           (spawnAll 1 ++ [EvStopCall; EvCoordDone; EvStopWake 0 (inl "u0");
                           EvStopReturn 0 None; EvStartReturn 0 None]))
      + uuidFaults 0
          (spawnAll 1 ++ [EvStopCall; EvCoordDone; EvStopWake 0 (inl "u0");
                          EvStopReturn 0 None; EvStartReturn 0 None]) = 1)%nat.
Proof.
  split; [vm_compute; reflexivity|].
  destruct (onStop_called_once_unless_uuid_fails oneTask
              (spawnAll 1 ++ [EvStopCall; EvCoordDone; EvStopWake 0 (inl "u0");
                              EvStopReturn 0 None; EvStartReturn 0 None])
              (stateAfter oneTask
                 (spawnAll 1 ++ [EvStopCall; EvCoordDone; EvStopWake 0 (inl "u0");
                                 EvStopReturn 0 None; EvStartReturn 0 None]))
              0%nat) as (_ & _ & H); [vm_compute; reflexivity|].
  apply (H None taskA); vm_compute; reflexivity.
Defined.

(** C6 does not hold for every run: when [uuid.NewUUID] fails in the
    stop-unit of the only task, [Start] returns and [OnStop] of that task has
    not been called. *)
Lemma onStop_not_always_called :
  ~ (forall c tr s i task r,
       run tr (initState c) = Some s ->
       backgroundTasks c !! i = Some task ->
       StartResult s = Some r ->
       stopCallsOf i s = 1%nat).
Proof.
  intros H.
  specialize (H oneTask
    (spawnAll 1 ++ [EvStopCall; EvStopWake 0 (inr (errorString "no clock"));
                    EvCoordDone; EvStartReturn 0 None])
    (stateAfter oneTask
       (spawnAll 1 ++ [EvStopCall; EvStopWake 0 (inr (errorString "no clock"));
                       EvCoordDone; EvStartReturn 0 None]))
    0%nat taskA
    (Some (uuidFault (errorString "no clock")))).
  assert (0 = 1)%nat as Habs; [|done].
  apply H; vm_compute; reflexivity.
Qed.

(** ** Stop *)

Lemma Stop_idem s : fst (Stop (fst (Stop s))) = fst (Stop s).
Proof.
  unfold Stop. simpl.
  destruct (mainContextCancel (self s)) as [f|] eqn:Hf; simpl; [|by rewrite Hf].
  destruct (decide (f = cancelOf (mainContext (self s)))) as [->|Hne].
  - unfold cancelMain. destruct (mainDone s) eqn:Hm; simpl.
    + rewrite Hf, decide_True by done. by rewrite Hm.
    + rewrite Hf, decide_True by done. done.
  - rewrite Hf. by rewrite decide_False.
Qed.

Lemma Stop_noop s : mainDone s = true -> fst (Stop s) = s.
Proof.
  intros Hm. unfold Stop, cancelMain. simpl. rewrite Hm. by repeat case_match.
Qed.

Lemma Stop_history s :
  submitted (fst (Stop s)) = submitted s /\ stopCalls (fst (Stop s)) = stopCalls s.
Proof. unfold Stop, cancelMain. simpl. by repeat case_match. Qed.

Lemma run_repeat_Stop n : forall s,
  run (repeat EvStopCall (S n)) s = Some (fst (Stop s)).
Proof.
  induction n as [|n IH]; intros s; [done|].
  change (run (repeat EvStopCall (S (S n))) s)
    with (run (repeat EvStopCall (S n)) (fst (Stop s))).
  by rewrite IH, Stop_idem.
Qed.

(** C7. [Stop] returns nil and can be called in every state.  It is
    idempotent: a second call changes nothing, and any number of calls leave
    the state one call leaves.  It neither touches the error slot nor records
    a return or a call of [OnStop].  Where [c.mainContext] is already
    cancelled (by an earlier [Stop] or a signal) a further call changes
    nothing in the run that follows; where the error slot is already taken
    (a critical failure came first) the slot stays as it is after the call,
    however the run goes on.  And in any run of [Start], whatever calls of
    [Stop] and signals it contains, no stop-unit calls [OnStop] twice. *)
Theorem stop_returns_nil_and_is_idempotent :
  (forall s, snd (Stop s) = None)
  /\ (forall s, step s EvStopCall = Some (fst (Stop s)))
  /\ (forall s, fst (Stop (fst (Stop s))) = fst (Stop s))
  /\ (forall s n, run (repeat EvStopCall (S n)) s = run [EvStopCall] s)
  /\ (forall s,
        groupErr (fst (Stop s)) = groupErr s
        /\ submitted (fst (Stop s)) = submitted s
        /\ stopCalls (fst (Stop s)) = stopCalls s)
  /\ (forall s tr, mainDone s = true -> run (EvStopCall :: tr) s = run tr s)
  /\ (forall s x tr s',
        groupErr s = Some x -> run (EvStopCall :: tr) s = Some s' ->
        groupErr s' = Some x)
  /\ (forall c tr s i,
        run tr (initState c) = Some s -> (stopCallsOf i s <= 1)%nat).
Proof.
  split; [done|]. split; [done|]. split; [apply Stop_idem|].
  split; [intros s n; by rewrite run_repeat_Stop|].
  split; [intros s; split; [apply Stop_groupErr|apply Stop_history]|].
  split.
  { intros s tr Hm. change (run tr (fst (Stop s)) = run tr s).
    by rewrite Stop_noop. }
  split; [intros s x tr s' Hg Hr; by eapply run_groupErr_pinned|].
  intros c tr s i Hrun.
  destruct (stop_calls_account c tr s i Hrun) as [Hc Hacc]. lia.
Qed.

(** ** The context handed to OnStop *)

Lemma Value_WithTimeout n parent timeout k :
  Value (WithTimeout n parent timeout) k = Value parent k.
Proof.
  unfold WithTimeout, WithDeadline.
  destruct (Deadline parent) as [cur|]; [|done]. by case_match.
Qed.

(** The stop-unit tags the context with the name of whatever task the loop
    variable [t] holds when the unit wakes, under the fresh UUID as key. *)
Lemma wake_reads_loop_variable s i id s' t :
  step s (EvStopWake i (inl id)) = Some s' -> loopT s = Some t ->
  exists task ctx err,
    stopUnits s !! i = Some (task, Waiting)
    /\ stopCalls s' = stopCalls s ++ [mkStopCall i task ctx err]
    /\ Value ctx id = Some (GetName t).
Proof.
  intros H Ht. step_inv H. eexists _, _, _. split; [done|]. split; [done|].
  rewrite Value_WithTimeout. simpl. by rewrite decide_True.
Qed.

(** A stop-unit that wakes after [c.mainContext] has been cancelled hands
    [OnStop] a context that is cancelled already. *)
Lemma wake_after_mainContext_cancelled s i id s' :
  step s (EvStopWake i (inl id)) = Some s' -> mainDone s = true ->
  exists task ctx,
    stopUnits s' !! i = Some (task, InStop ctx (Some Canceled))
    /\ stopCalls s' = stopCalls s ++ [mkStopCall i task ctx (Some Canceled)].
Proof.
  intros H Hm. step_inv H. unfold freshErr. rewrite Hm.
  eexists _, _. split; [|done].
  apply list_lookup_insert_eq. by eapply lookup_lt_Some.
Qed.

(** The error of a context is final: while [OnStop] runs, no step of any
    other goroutine and no passing of time changes it. *)
Lemma context_error_is_final s e s' i task ctx x :
  step s e = Some s' ->
  stopUnits s !! i = Some (task, InStop ctx (Some x)) ->
  (forall r, e <> EvStopReturn i r) ->
  stopUnits s' !! i = Some (task, InStop ctx (Some x)).
Proof.
  intros H Hi Hne. step_inv H; autorewrite with brokkr; simpl;
    rewrite ?list_lookup_fmap, ?Hi; try done.
  all: try (apply lookup_app_l_Some; done).
  all: match goal with
       | H : stopUnits _ !! ?j = Some _ |- _ =>
           destruct (decide (j = i)) as [->|];
           [first [congruence | by edestruct Hne]
           |by rewrite list_lookup_insert_ne]
       end.
Qed.

(** C4. One task with a stop timeout of five seconds; [Stop] is called while
    [Start] waits.  The context handed to [OnStop] has the deadline five
    seconds ahead, yet its [Err()] is [context.Canceled] at the call already,
    because it is derived from [c.mainContext], which [Stop] has just
    cancelled.  Ten seconds into an [OnStop] that does not return, the context
    still reports [Canceled], never [DeadlineExceeded], and [Start] has not
    returned although every other goroutine has.  The path of a critical
    failure leaves [c.mainContext] alone: there the context is live at the
    call, live one nanosecond before the deadline, and reports
    [DeadlineExceeded] at the deadline. *)
Theorem stop_context_after_Stop_is_cancelled_not_timed :
  stopCalls <$> run stopThenWake (initState oneTask)
  = Some [mkStopCall 0 taskA
            (withDeadline (withValue (withCancel Background) "u0" "a") (5 * Second))
            (Some Canceled)]
  /\ stopUnits <$> run (stopThenWake ++ [EvTick (10 * Second)]) (initState oneTask)
     = Some [(taskA,
              InStop (withDeadline (withValue (withCancel Background) "u0" "a")
                        (5 * Second))
                     (Some Canceled))]
  /\ StartResult <$> run (stopThenWake ++ [EvTick (10 * Second); EvCoordDone;
                                            EvStartReturn 0 None])
                         (initState oneTask)
     = Some None
  /\ stopCalls <$> run failThenWake (initState oneCritical)
     = Some [mkStopCall 0 critA
               (withDeadline (withValue (withCancel Background) "u0" "a") (5 * Second))
               None]
  /\ stopUnits <$> run (failThenWake ++ [EvTick (5 * Second - 1)]) (initState oneCritical)
     = Some [(critA,
              InStop (withDeadline (withValue (withCancel Background) "u0" "a")
                        (5 * Second))
                     None)]
  /\ stopUnits <$> run (failThenWake ++ [EvTick (5 * Second - 1); EvTick 1])
                       (initState oneCritical)
     = Some [(critA,
              InStop (withDeadline (withValue (withCancel Background) "u0" "a")
                        (5 * Second))
                     (Some DeadlineExceeded))].
Proof. repeat split; vm_compute; reflexivity. Qed.

(** C5. Two tasks named a and b; [Stop] is called while [Start] waits.  When
    the stop-units wake the loop is over and its variable [t] holds the last
    task, so both contexts carry the name b: [OnStop] of task a is called with
    a context tagged b. *)
Theorem stop_context_carries_name_of_last_task :
  loopT <$> run (spawnAll 2) (initState twoTasks) = Some (Some taskB)
  /\ stopCalls <$> run stopThenWakeBoth (initState twoTasks)
     = Some [mkStopCall 0 taskA
               (withDeadline (withValue (withCancel Background) "u0" "b") (60 * Second))
               (Some Canceled);
             mkStopCall 1 taskB
               (withDeadline (withValue (withCancel Background) "u1" "b") (60 * Second))
               (Some Canceled)]
  /\ Value (withDeadline (withValue (withCancel Background) "u0" "b") (60 * Second)) "u0"
     = Some "b"
  /\ GetName taskA = "a"
  /\ GetName taskA <> "b".
Proof. repeat split; try (vm_compute; reflexivity). done. Qed.

(** C8. One task; [Stop] is called; the coordination unit returns
    [TaskErrorGroupCtx.Err()], which takes the error slot; [OnStop] then
    fails.  The failure is the first error that is not a cancellation, and it
    comes from a stop-unit, yet [Start] returns nil.  With SIGTERM in place of
    the call of [Stop] the coordination unit returns nil and the same failure
    is what [Start] returns.  The slot can also be taken by a cancellation
    from a critical start-unit, with the same loss. *)
Theorem cancellation_in_the_slot_hides_later_errors :
  (fun s => (submitted s, StartResult s))
    <$> run stopThenFailingOnStop (initState oneTask)
  = Some ([(UCoord, Canceled); (UStop 0, errorString "flush failed")], Some None)
  /\ (fun s => (submitted s, StartResult s))
       <$> run signalThenFailingOnStop (initState oneTask)
     = Some ([(UStop 0, errorString "flush failed")],
             Some (Some (errorString "flush failed")))
  /\ (fun s => (submitted s, StartResult s))
       <$> run signalThenCanceledStartThenFailingOnStop (initState criticalAndPlain)
     = Some ([(UStart 0, Canceled); (UStop 1, errorString "flush failed")], Some None)
  /\ errors_Is (errorString "flush failed") Canceled = false.
Proof. repeat split; vm_compute; reflexivity. Qed.

(** * Further properties *)

(** ** Building the orchestrator *)

Lemma foldl_options (os : list Opt) : forall b,
  backgroundTasks (foldl (fun b o => o b) b (toOptions <$> os))
  = backgroundTasks b ++ concat (tasksOf <$> os)
  /\ stopTimeout (foldl (fun b o => o b) b (toOptions <$> os))
     = timeoutAfter (stopTimeout b) os
  /\ signals (foldl (fun b o => o b) b (toOptions <$> os)) = signals b
  /\ mainContext (foldl (fun b o => o b) b (toOptions <$> os)) = mainContext b
  /\ mainContextCancel (foldl (fun b o => o b) b (toOptions <$> os))
     = mainContextCancel b.
Proof.
  induction os as [|o os IH]; intros b.
  - simpl. by rewrite app_nil_r.
  - rewrite !fmap_cons. cbn [foldl].
    destruct (IH (toOptions o b)) as (H1 & H2 & H3 & H4 & H5).
    rewrite H1, H2, H3, H4, H5. destruct o; simpl; [done|].
    by rewrite <- app_assoc.
Qed.

(** X1. The tasks of an orchestrator built from any list of the two exported
    options are the tasks of its [AddBackgroundTasks] options, in the order
    given, with nothing lost, repeated or reordered; [SetForceStopTimeout]
    options in between do not disturb them. *)
Theorem NewBrokkr_tasks (os : list Opt) :
  backgroundTasks (NewBrokkr (toOptions <$> os)) = concat (tasksOf <$> os).
Proof.
  unfold NewBrokkr.
  by destruct (foldl_options os
                 (mkBrokkr [SIGTERM; SIGQUIT; SIGINT] (60 * Second) []
                    (withCancel Background)
                    (Some (cancelOf (withCancel Background)))))
    as (-> & _).
Qed.

(** X2. Whatever exported options are given, the orchestrator listens to
    SIGTERM, SIGQUIT and SIGINT, its context is a cancellable child of the
    background context and it holds the cancel function of that very context;
    its stop timeout is the one of the last [SetForceStopTimeout], or 60
    seconds when there is none. *)
Theorem NewBrokkr_root_and_timeout (os : list Opt) :
  signals (NewBrokkr (toOptions <$> os)) = [SIGTERM; SIGQUIT; SIGINT]
  /\ mainContext (NewBrokkr (toOptions <$> os)) = withCancel Background
  /\ mainContextCancel (NewBrokkr (toOptions <$> os))
     = Some (cancelOf (mainContext (NewBrokkr (toOptions <$> os))))
  /\ Deadline (mainContext (NewBrokkr (toOptions <$> os))) = None
  /\ stopTimeout (NewBrokkr (toOptions <$> os)) = timeoutAfter (60 * Second) os
  /\ (forall os' t,
        stopTimeout (NewBrokkr (toOptions <$> (os ++ OptTimeout t :: (OptTasks <$> os'))))
        = t).
Proof.
  unfold NewBrokkr.
  destruct (foldl_options os (mkBrokkr [SIGTERM; SIGQUIT; SIGINT] (60 * Second) []
              (withCancel Background) (Some (cancelOf (withCancel Background)))))
    as (_ & H2 & H3 & H4 & H5).
  rewrite H2, H3, H4, H5. simpl. repeat split.
  intros os' t.
  destruct (foldl_options (os ++ OptTimeout t :: (OptTasks <$> os'))
              (mkBrokkr [SIGTERM; SIGQUIT; SIGINT] (60 * Second) []
                 (withCancel Background) (Some (cancelOf (withCancel Background)))))
    as (_ & -> & _).
  simpl. unfold timeoutAfter. rewrite foldl_app. simpl.
  generalize t. clear. induction os' as [|bt os' IH]; intros t; simpl; [done|].
  apply IH.
Qed.

(** ** Invariants of a run of Start *)

(** A property that holds at the start and that every step preserves, in
    states satisfying [Inv], holds throughout every run. *)
Lemma run_invariant (P : RunState -> Prop) :
  (forall s e s', Inv s -> P s -> step s e = Some s' -> P s') ->
  forall tr s s', Inv s -> P s -> run tr s = Some s' -> P s'.
Proof.
  intros Hstep. induction tr as [|e tr IH]; simpl; intros s s' HI HP H.
  - by simplify_eq.
  - destruct (step s e) as [s1|] eqn:E; [|done].
    eapply IH; [by eapply step_Inv|by eapply Hstep|done].
Qed.

Lemma cancelChild_Waiting u : (cancelChild u).2 = Waiting <-> u.2 = Waiting.
Proof. by destruct u as [task [|ctx [x|]|]]. Qed.

Lemma expireChild_Waiting n u : (expireChild n u).2 = Waiting <-> u.2 = Waiting.
Proof.
  destruct u as [task [|ctx [x|]|]]; simpl; try done.
  destruct (Deadline ctx) as [d|]; [|done]. by destruct (d <=? n).
Qed.

Lemma step_not_woken s e s' :
  groupCtxDone s = true
  \/ (Forall (fun u => u.2 = Waiting) (stopUnits s) /\ stopCalls s = []) ->
  step s e = Some s' ->
  groupCtxDone s' = true
  \/ (Forall (fun u => u.2 = Waiting) (stopUnits s') /\ stopCalls s' = []).
Proof.
  intros [Hd|[HF HC]] H; [left; by eapply step_groupCtxDone_mono|].
  destruct (groupCtxDone s) eqn:Hd; [left; by eapply step_groupCtxDone_mono|].
  right. step_inv H; autorewrite with brokkr; simpl; try done; try congruence.
  all: try (split; [|done]).
  all: try (apply Forall_app; split; [done|by repeat constructor]).
  all: try (apply list.Forall_forall; intros u (v & -> & Hv)%list_elem_of_fmap;
            rewrite list.Forall_forall in HF; specialize (HF v Hv);
            first [by apply (proj2 (cancelChild_Waiting v))
                  |by apply (proj2 (expireChild_Waiting _ v))]).
  all: try match goal with
       | H : stopUnits _ !! _ = Some _ |- _ =>
           by apply (Forall_lookup_1 _ _ _ _ HF) in H
       end.
Qed.

Lemma reachable_not_woken c tr s :
  run tr (initState c) = Some s ->
  groupCtxDone s = false ->
  stopCalls s = []
  /\ forall i task ph, stopUnits s !! i = Some (task, ph) -> ph = Waiting.
Proof.
  intros Hrun Hd.
  assert (groupCtxDone s = true
          \/ (Forall (fun u => u.2 = Waiting) (stopUnits s) /\ stopCalls s = []))
    as [?|[HF HC]]; [|congruence|].
  { eapply (run_invariant _ (fun s e s' _ => step_not_woken s e s'));
      [apply initState_Inv| |done].
    right. by split. }
  split; [done|]. intros i task ph Hi.
  by apply (Forall_lookup_1 _ _ _ _ HF) in Hi.
Qed.

(** X4. No task is stopped before shutdown has been requested: in every run
    of [Start], as long as the group's context is not done (no [Stop], no
    signal taken, no error in the group), every stop-unit is still waiting and
    [OnStop] has not been called. *)
Theorem no_stop_before_cancellation c tr s :
  run tr (initState c) = Some s ->
  groupCtxDone s = false ->
  stopCalls s = []
  /\ forall i task ph, stopUnits s !! i = Some (task, ph) -> ph = Waiting.
Proof. apply reachable_not_woken. Qed.

Lemma no_stop_before_cancellation_witness :
  run (spawnAll 2 ++ [EvStartReturn 0 None; EvTick Second])
      (initState twoTasks)
  = Some (stateAfter twoTasks (spawnAll 2 ++ [EvStartReturn 0 None; EvTick Second]))
  /\ groupCtxDone
       (stateAfter twoTasks (spawnAll 2 ++ [EvStartReturn 0 None; EvTick Second]))
     = false
  /\ stopCalls
       (stateAfter twoTasks (spawnAll 2 ++ [EvStartReturn 0 None; EvTick Second]))
     = [].
Proof.
  split; [vm_compute; reflexivity|]. split; [vm_compute; reflexivity|].
  apply (no_stop_before_cancellation twoTasks
           (spawnAll 2 ++ [EvStartReturn 0 None; EvTick Second]));
    vm_compute; reflexivity.
Defined.

Lemma step_coord_done s e s' :
  mainContextCancel (self s) = Some (cancelOf (mainContext (self s))) ->
  (coordReturned s = true -> groupCtxDone s = true) ->
  step s e = Some s' ->
  coordReturned s' = true -> groupCtxDone s' = true.
Proof.
  intros Hc HP H Hr.
  destruct (groupCtxDone s) eqn:Hd; [by eapply step_groupCtxDone_mono|].
  destruct (coordReturned s) eqn:Hcr; [by discriminate HP|].
  destruct e; try (step_inv H; autorewrite with brokkr in *; simpl in *;
                   congruence).
  - (* EvCoordDone *)
    cbn [step] in H. rewrite Hd, andb_false_r in H. done.
  - (* EvCoordSignal *)
    cbn [step] in H. destruct (coordRunning s); [|done].
    destruct (interruptSignal s) as [|sg q] eqn:Hq; [done|].
    destruct (Stop (setInterruptSignal q s)) as [s1 r] eqn:HS.
    injection H as <-.
    unfold groupCtxDone. autorewrite with brokkr. simpl.
    replace s1 with (fst (Stop (setInterruptSignal q s))) by (by rewrite HS).
    by rewrite Stop_mainDone.
Qed.

(** X3. [Start] does not return on its own: whenever it has returned, the
    group's context was done, that is, [Stop] had been called, a signal had
    been taken, or a unit had returned an error.  This holds when there is at
    least one task, and also without tasks when the orchestrator holds the
    cancel function of its context (as every orchestrator made by [NewBrokkr]
    from the exported options does).  In particular tasks whose [OnStart]
    all return nil do not end [Start]. *)
Theorem start_returns_only_after_cancellation c tr s r :
  run tr (initState c) = Some s ->
  backgroundTasks c <> []
  \/ mainContextCancel c = Some (cancelOf (mainContext c)) ->
  StartResult s = Some r ->
  groupCtxDone s = true.
Proof.
  intros Hrun Hc Hr.
  pose proof (reachable_Inv _ _ _ Hrun) as HI.
  pose proof (reachable_self _ _ _ Hrun) as Hself.
  unfold StartResult in Hr. destruct (terminated s) eqn:Ht; [|done].
  destruct (groupCtxDone s) eqn:Hd; [done|exfalso].
  destruct Hc as [Hne|Hcancel].
  - destruct (backgroundTasks c) as [|task l] eqn:Hb; [done|].
    assert (Hu : stopUnits s !! 0%nat = Some (task, StopReturned)).
    { apply terminated_stop_unit; [done..|]. by rewrite Hself, Hb. }
    destruct (reachable_not_woken c tr s Hrun Hd) as [_ HW].
    by specialize (HW _ _ _ Hu).
  - assert (self s = c /\ (coordReturned s = true -> groupCtxDone s = true))
      as [_ HP].
    { apply (run_invariant
               (fun s => self s = c
                         /\ (coordReturned s = true -> groupCtxDone s = true)))
        with (tr := tr) (s := initState c).
      - intros s0 e s1 _ [Hs0 HP0] Hst. split.
        + by rewrite (step_self _ _ _ Hst).
        + eapply step_coord_done; [by rewrite Hs0|done..].
      - apply initState_Inv.
      - by split.
      - exact Hrun. }
    unfold terminated in Ht. apply andb_prop in Ht as [Ht _].
    apply andb_prop in Ht as [Ht _]. apply andb_prop in Ht as [_ Hcr].
    rewrite HP in Hd; done.
Qed.

Lemma start_returns_only_after_cancellation_witness :
  run stopThenFailingOnStop (initState oneTask)
  = Some (stateAfter oneTask stopThenFailingOnStop)
  /\ (backgroundTasks oneTask <> []
      \/ mainContextCancel oneTask = Some (cancelOf (mainContext oneTask)))
  /\ StartResult (stateAfter oneTask stopThenFailingOnStop) = Some None
  /\ groupCtxDone (stateAfter oneTask stopThenFailingOnStop) = true.
Proof.
  split; [vm_compute; reflexivity|]. split; [right; vm_compute; reflexivity|].
  split; [vm_compute; reflexivity|].
  apply (start_returns_only_after_cancellation oneTask stopThenFailingOnStop
           (stateAfter oneTask stopThenFailingOnStop) None);
    [vm_compute; reflexivity|right; vm_compute; reflexivity|vm_compute; reflexivity].
Defined.

(** ** The contexts of the stop phase *)

Lemma Deadline_WithTimeout n parent timeout :
  exists dl, Deadline (WithTimeout n parent timeout) = Some dl /\ dl <= n + timeout.
Proof.
  unfold WithTimeout, WithDeadline.
  destruct (Deadline parent) as [cur|] eqn:E.
  - destruct (cur <? n + timeout) eqn:Hlt; simpl.
    + exists cur. split; [done|]. apply Z.ltb_lt in Hlt. lia.
    + exists (n + timeout). split; [done|lia].
  - exists (n + timeout). split; [done|lia].
Qed.

Lemma freshErr_sound s ctx :
  (exists dl, Deadline ctx = Some dl) ->
  ctxSound (mainDone s) (now s) ctx (freshErr s ctx).
Proof.
  intros [dl Hdl]. exists dl. split; [done|]. unfold freshErr.
  destruct (mainDone s); [done|]. rewrite Hdl.
  destruct (dl <=? now s) eqn:E; [by apply Z.leb_le|].
  apply Z.leb_gt in E. by split.
Qed.

Lemma cancelChild_sound md n u :
  unitSound md n u -> unitSound true n (cancelChild u).
Proof.
  destruct u as [task [|ctx [x|]|]]; simpl; try done.
  - intros (dl & Hdl & Hx). exists dl. split; [done|]. by destruct x.
  - intros (dl & Hdl & _). by exists dl.
Qed.

Lemma expireChild_sound md n n' u :
  n <= n' -> unitSound md n u -> unitSound md n' (expireChild n' u).
Proof.
  intros Hn. destruct u as [task [|ctx [x|]|]]; simpl; try done.
  - intros (dl & Hdl & Hx). exists dl. split; [done|]. destruct x; try done. lia.
  - intros (dl & Hdl & Hm & Hlt). rewrite Hdl.
    destruct (dl <=? n') eqn:E; simpl; exists dl; (split; [done|]).
    + by apply Z.leb_le.
    + apply Z.leb_gt in E. by split.
Qed.

Lemma step_units_sound s e s' :
  Forall (unitSound (mainDone s) (now s)) (stopUnits s) ->
  step s e = Some s' ->
  Forall (unitSound (mainDone s') (now s')) (stopUnits s').
Proof.
  intros HF H.
  step_inv H; autorewrite with brokkr; simpl; try done.
  all: try (apply Forall_app; split; [done|by repeat constructor]).
  all: try (apply Forall_insert; [done|]; simpl; try done).
  all: try (apply list.Forall_forall; intros u (v & -> & Hv)%list_elem_of_fmap;
            rewrite list.Forall_forall in HF; specialize (HF v Hv)).
  all: try (by eapply cancelChild_sound).
  all: try (eapply expireChild_sound; [|done];
            match goal with
            | H : (0 <=? _) = true |- _ => apply Z.leb_le in H; lia
            end).
  all: try match goal with H : mainDone _ = true |- _ => by rewrite H end.
  all: try (apply freshErr_sound;
            match goal with
            | |- exists _, Deadline (WithTimeout ?n ?p ?t) = _ =>
                destruct (Deadline_WithTimeout n p t) as (dl & ? & _); by exists dl
            end).
Qed.

(** X7. What a task sees in the context of its [OnStop] while it runs: the
    context has a deadline; its [Err()] is nil only while [c.mainContext] is
    not cancelled and the deadline is still ahead, it is [context.Canceled]
    only if [c.mainContext] has been cancelled, and it is
    [context.DeadlineExceeded] only once the deadline has been reached, never
    before. *)
Theorem stop_context_reports c tr s i task ctx err :
  run tr (initState c) = Some s ->
  stopUnits s !! i = Some (task, InStop ctx err) ->
  exists dl,
    Deadline ctx = Some dl
    /\ ((err = None /\ mainDone s = false /\ now s < dl)
        \/ (err = Some Canceled /\ mainDone s = true)
        \/ (err = Some DeadlineExceeded /\ dl <= now s)).
Proof.
  intros Hrun Hi.
  assert (HF : Forall (unitSound (mainDone s) (now s)) (stopUnits s)).
  { eapply (run_invariant _ (fun s e s' _ => step_units_sound s e s'));
      [apply initState_Inv| |exact Hrun]. constructor. }
  apply (Forall_lookup_1 _ _ _ _ HF) in Hi as (dl & Hdl & Herr).
  exists dl. split; [done|].
  destruct err as [[]|]; try done; auto.
Qed.

Lemma stop_context_reports_witness :
  run (failThenWake ++ [EvTick (5 * Second)]) (initState oneCritical)
  = Some (stateAfter oneCritical (failThenWake ++ [EvTick (5 * Second)]))
  /\ stopUnits (stateAfter oneCritical (failThenWake ++ [EvTick (5 * Second)])) !! 0%nat
     = Some (critA,
             InStop (withDeadline (withValue (withCancel Background) "u0" "a")
                       (5 * Second))
                    (Some DeadlineExceeded))
  /\ exists dl,
       Deadline (withDeadline (withValue (withCancel Background) "u0" "a") (5 * Second))
       = Some dl
       /\ dl <= now (stateAfter oneCritical (failThenWake ++ [EvTick (5 * Second)])).
Proof.
  split; [vm_compute; reflexivity|]. split; [vm_compute; reflexivity|].
  destruct (stop_context_reports oneCritical (failThenWake ++ [EvTick (5 * Second)])
              (stateAfter oneCritical (failThenWake ++ [EvTick (5 * Second)]))
              0%nat critA
              (withDeadline (withValue (withCancel Background) "u0" "a") (5 * Second))
              (Some DeadlineExceeded))
    as (dl & Hdl & [(H & _)|[(H & _)|(_ & H)]]);
    [vm_compute; reflexivity|vm_compute; reflexivity|discriminate H|discriminate H|].
  by exists dl.
Defined.


Lemma last_snoc_Some {A} (l : list A) x : list.last (l ++ [x]) = Some x.
Proof. by rewrite list.last_snoc. Qed.

(** The loop variable holds the task of the last iteration begun. *)
Lemma step_loopT s e s' :
  loopT s = list.last ((fst <$> startUnits s) ++ currentTask (pc s)) ->
  step s e = Some s' ->
  loopT s' = list.last ((fst <$> startUnits s') ++ currentTask (pc s')).
Proof.
  intros HJ H.
  step_inv H; autorewrite with brokkr; simpl; rewrite ?app_nil_r in *;
    try (erewrite fmap_fst_insert by eassumption); try done.
  - by rewrite last_snoc_Some.
  - by rewrite fmap_app.
  - congruence.
Qed.





Lemma reachable_loopT c tr s :
  run tr (initState c) = Some s ->
  loopT s = list.last ((fst <$> startUnits s) ++ currentTask (pc s)).
Proof.
  intros Hrun.
  apply (run_invariant _ (fun s e s' _ => step_loopT s e s'))
    with (tr := tr) (s := initState c); [apply initState_Inv|done|done].
Qed.



(** X9. Once the loop of [Start] is over, the loop variable holds the last
    registered task, so every stop-unit that wakes from then on tags the
    context with the name of the last task, while it calls [OnStop] of its
    own task. *)
Theorem stop_context_tag_after_loop c tr s i id s' :
  run tr (initState c) = Some s ->
  pc s = PCWait ->
  step s (EvStopWake i (inl id)) = Some s' ->
  exists task tl ctx err,
    backgroundTasks c !! i = Some task
    /\ list.last (backgroundTasks c) = Some tl
    /\ stopCalls s' = stopCalls s ++ [mkStopCall i task ctx err]
    /\ Value ctx id = Some (GetName tl).
Proof.
  intros Hrun Hpc Hst.
  pose proof (reachable_Inv _ _ _ Hrun) as HI.
  pose proof (reachable_self _ _ _ Hrun) as Hself.
  pose proof (reachable_loopT _ _ _ Hrun) as HJ.
  pose proof (inv_starts _ HI) as Hs. rewrite Hpc in Hs, HJ. simpl in Hs, HJ.
  rewrite Hs, Hself in HJ.
  destruct (loopT s) as [tl|] eqn:Hl.
  - destruct (wake_reads_loop_variable s i id s' tl Hst Hl)
      as (task & ctx & err & Hi & Hcalls & Hv).
    exists task, tl, ctx, err. split; [|done].
    rewrite <- Hself, <- (inv_stops _ HI). apply lookup_app_l_Some.
    by rewrite list_lookup_fmap, Hi.
  - simpl in Hst. by repeat case_match.
Qed.

Lemma stop_context_tag_after_loop_witness :
  run (spawnAll 2 ++ [EvStopCall]) (initState twoTasks)
  = Some (stateAfter twoTasks (spawnAll 2 ++ [EvStopCall]))
  /\ pc (stateAfter twoTasks (spawnAll 2 ++ [EvStopCall])) = PCWait
  /\ step (stateAfter twoTasks (spawnAll 2 ++ [EvStopCall])) (EvStopWake 0 (inl "u0"))
     = Some (stateAfter twoTasks (spawnAll 2 ++ [EvStopCall; EvStopWake 0 (inl "u0")]))
  /\ exists task tl ctx err,
       backgroundTasks twoTasks !! 0%nat = Some task
       /\ list.last (backgroundTasks twoTasks) = Some tl
       /\ stopCalls (stateAfter twoTasks
                       (spawnAll 2 ++ [EvStopCall; EvStopWake 0 (inl "u0")]))
          = stopCalls (stateAfter twoTasks (spawnAll 2 ++ [EvStopCall]))
            ++ [mkStopCall 0 task ctx err]
       /\ Value ctx "u0" = Some (GetName tl).
Proof.
  do 3 (split; [vm_compute; reflexivity|]).
  apply (stop_context_tag_after_loop twoTasks (spawnAll 2 ++ [EvStopCall])
           (stateAfter twoTasks (spawnAll 2 ++ [EvStopCall])) 0%nat "u0");
    vm_compute; reflexivity.
Defined.

(** X15. [Start] spawns one stop-unit and one start-unit per registered task,
    in the order of registration and duplicates included; while the loop
    runs, the units spawned so far belong to a prefix of the task list. *)
Theorem units_follow_tasks c tr s :
  run tr (initState c) = Some s ->
  (fst <$> stopUnits s) `prefix_of` backgroundTasks c
  /\ (fst <$> startUnits s) `prefix_of` (fst <$> stopUnits s)
  /\ (length (stopUnits s) <= length (startUnits s) + 1)%nat
  /\ (notified s = true ->
      fst <$> stopUnits s = backgroundTasks c
      /\ fst <$> startUnits s = backgroundTasks c).
Proof.
  intros Hrun.
  pose proof (reachable_Inv _ _ _ Hrun) as HI.
  pose proof (reachable_self _ _ _ Hrun) as Hself.
  pose proof (inv_stops _ HI) as H1. pose proof (inv_starts _ HI) as H2.
  rewrite Hself in H1, H2.
  split; [by eexists|].
  assert (Hlen : length (backgroundTasks c)
                 = (length (stopUnits s) + length (pendingStops (pc s)))%nat).
  { by rewrite <- H1, length_app, length_fmap. }
  assert (Hlen' : length (backgroundTasks c)
                 = (length (startUnits s) + length (pendingStarts (pc s)))%nat).
  { by rewrite <- H2, length_app, length_fmap. }
  unfold notified.
  destruct (pc s) as [rest|task rest|task rest| | |] eqn:Hpc; simpl in *;
    rewrite ?app_nil_r in *.
  - assert ((stopUnits s).*1 = (startUnits s).*1) as ->.
    { apply (app_inv_tail rest). congruence. }
    split; [done|]. split; [lia|done].
  - assert ((stopUnits s).*1 = (startUnits s).*1) as ->.
    { apply (app_inv_tail (task :: rest)). congruence. }
    split; [done|]. split; [lia|done].
  - assert ((stopUnits s).*1 = (startUnits s).*1 ++ [task]) as ->.
    { apply (app_inv_tail rest). rewrite <- app_assoc. simpl. congruence. }
    split; [by eexists|]. split; [lia|done].
  - rewrite H1, H2. split; [done|]. split; [lia|done].
  - rewrite H1, H2. split; [done|]. split; [lia|done].
  - rewrite H1, H2. split; [done|]. split; [lia|done].
Qed.

Lemma units_follow_tasks_witness :
  run (spawnAll 2) (initState twoTasks) = Some (stateAfter twoTasks (spawnAll 2))
  /\ fst <$> stopUnits (stateAfter twoTasks (spawnAll 2)) = backgroundTasks twoTasks
  /\ fst <$> startUnits (stateAfter twoTasks (spawnAll 2)) = backgroundTasks twoTasks.
Proof.
  split; [vm_compute; reflexivity|].
  destruct (units_follow_tasks twoTasks (spawnAll 2)
              (stateAfter twoTasks (spawnAll 2))) as (_ & _ & _ & H);
    [vm_compute; reflexivity|].
  apply H. vm_compute; reflexivity.
Defined.

(** ** Where the result of Start comes from *)

(** A unit that has returned stays returned. *)
Lemma step_returned_stay s e s' :
  step s e = Some s' ->
  (forall i task, stopUnits s !! i = Some (task, StopReturned) ->
                  stopUnits s' !! i = Some (task, StopReturned))
  /\ (forall i task, startUnits s !! i = Some (task, StartReturned) ->
                     startUnits s' !! i = Some (task, StartReturned))
  /\ (coordReturned s = true -> coordReturned s' = true).
Proof.
  intros H.
  step_inv H; autorewrite with brokkr; simpl; (split; [|split]); try done.
  all: intros j tk Hj.
  all: try (by apply lookup_app_l_Some).
  all: try (by rewrite list_lookup_fmap, Hj).
  all: match goal with
       | H : _ !! ?i = Some _ |- _ !! ?k = _ =>
           destruct (decide (i = k)) as [->|];
           [congruence|by rewrite list_lookup_insert_ne]
       end.
Qed.

Lemma submissionSound_mono s e s' ux :
  step s e = Some s' -> submissionSound s ux -> submissionSound s' ux.
Proof.
  intros H. destruct (step_returned_stay _ _ _ H) as (H1 & H2 & H3).
  unfold submissionSound. destruct (ux.1).
  - intros (task & ?). exists task. auto.
  - intros (task & ? & ?). exists task. auto.
  - intros [? ?]. auto.
Qed.

Lemma step_submissions s e s' :
  Forall (submissionSound s) (submitted s) ->
  step s e = Some s' ->
  Forall (submissionSound s') (submitted s').
Proof.
  intros HF H.
  assert (Hold : Forall (submissionSound s') (submitted s)).
  { eapply list.Forall_impl; [exact HF|]. intros ux. by eapply submissionSound_mono. }
  clear HF.
  destruct e; try (step_inv H; autorewrite with brokkr in *; simpl in *;
                   rewrite ?app_nil_r in *; done).
  - (* EvCoordDone *)
    step_inv H; autorewrite with brokkr in *; simpl in *.
    apply Forall_app. split; [done|]. by repeat constructor.
  - (* EvStartReturn *)
    cbn [step] in H.
    destruct (startUnits s !! i) as [[task [|]]|] eqn:Hi; try done.
    injection H as <-. autorewrite with brokkr in *. simpl.
    unfold startUnitResult in *.
    destruct r as [x|]; [|by rewrite app_nil_r].
    destruct (IsCriticalToStop task) eqn:Hc; [|by rewrite app_nil_r].
    apply Forall_app. split; [done|]. constructor; [|constructor].
    exists task. autorewrite with brokkr. simpl. split; [|done].
    apply list_lookup_insert_eq. by eapply lookup_lt_Some.
  - (* EvStopWake *)
    cbn [step] in H.
    destruct (stopUnits s !! i) as [[task [| |]]|] eqn:Hi; try done.
    destruct (groupCtxDone s); [|done].
    destruct u as [id|errNewUUID].
    + destruct (loopT s); [|done]. injection H as <-. by simpl in *.
    + injection H as <-. autorewrite with brokkr in *. simpl.
      apply Forall_app. split; [done|]. constructor; [|constructor].
      exists task. autorewrite with brokkr. simpl.
      apply list_lookup_insert_eq. by eapply lookup_lt_Some.
  - (* EvStopReturn *)
    cbn [step] in H.
    destruct (stopUnits s !! i) as [[task [| |]]|] eqn:Hi; try done.
    injection H as <-. autorewrite with brokkr in *. simpl.
    destruct r as [x|]; [|by rewrite app_nil_r].
    apply Forall_app. split; [done|]. constructor; [|constructor].
    exists task. autorewrite with brokkr. simpl.
    apply list_lookup_insert_eq. by eapply lookup_lt_Some.
Qed.

Lemma reachable_submissions c tr s :
  run tr (initState c) = Some s -> Forall (submissionSound s) (submitted s).
Proof.
  intros Hrun.
  apply (run_invariant _ (fun s e s' _ => step_submissions s e s'))
    with (tr := tr) (s := initState c); [apply initState_Inv|constructor|done].
Qed.

Lemma filterCanceled_Some err e :
  filterCanceled err = Some e -> err = Some e /\ errors_Is e Canceled = false.
Proof.
  destruct err as [x|]; simpl; [|done].
  destruct (errors_Is x Canceled) eqn:E; [done|]. intros. by simplify_eq.
Qed.

(** The unit behind a non-nil result of [Start]. *)
Lemma result_origin c tr s e :
  run tr (initState c) = Some s ->
  StartResult s = Some (Some e) ->
  errors_Is e Canceled = false
  /\ exists u rest,
       submitted s = (u, e) :: rest
       /\ ((exists i task, u = UStop i /\ backgroundTasks c !! i = Some task)
           \/ (exists i task,
                 u = UStart i /\ backgroundTasks c !! i = Some task
                 /\ IsCriticalToStop task = true)).
Proof.
  intros Hrun Hr.
  pose proof (reachable_Inv _ _ _ Hrun) as HI.
  pose proof (reachable_self _ _ _ Hrun) as Hself.
  pose proof (reachable_submissions _ _ _ Hrun) as HS.
  apply StartResult_Some in Hr. symmetry in Hr.
  apply filterCanceled_Some in Hr as [Hg He]. split; [done|].
  rewrite (inv_slot _ HI) in Hg.
  destruct (submitted s) as [|[u x] rest] eqn:Hsub; simplify_eq/=.
  exists u, rest. split; [done|].
  pose proof (Forall_inv HS) as Hu. unfold submissionSound in Hu. simpl in Hu.
  destruct u as [i|i|].
  - left. destruct Hu as (task & Hi). exists i, task. split; [done|].
    rewrite <- (inv_stops _ HI). apply lookup_app_l_Some.
    by rewrite list_lookup_fmap, Hi.
  - right. destruct Hu as (task & Hi & Hc). exists i, task.
    split; [done|]. split; [|done].
    rewrite <- (inv_starts _ HI). apply lookup_app_l_Some.
    by rewrite list_lookup_fmap, Hi.
  - destruct Hu as [-> _]. done.
Qed.

(** X14. [Start] never returns a cancellation.  An error it returns was the
    first error any unit returned to the group, and that unit was the
    stop-unit of a registered task or the start-unit of a registered critical
    task; the coordination unit and non-critical start-units never supply
    the result. *)
Theorem start_result_origin c tr s e :
  run tr (initState c) = Some s ->
  StartResult s = Some (Some e) ->
  errors_Is e Canceled = false
  /\ exists u rest,
       submitted s = (u, e) :: rest
       /\ ((exists i task, u = UStop i /\ backgroundTasks c !! i = Some task)
           \/ (exists i task,
                 u = UStart i /\ backgroundTasks c !! i = Some task
                 /\ IsCriticalToStop task = true)).
Proof. apply result_origin. Qed.

Lemma start_result_origin_witness :
  run signalThenFailingOnStop (initState oneTask)
  = Some (stateAfter oneTask signalThenFailingOnStop)
  /\ StartResult (stateAfter oneTask signalThenFailingOnStop)
     = Some (Some (errorString "flush failed"))
  /\ errors_Is (errorString "flush failed") Canceled = false.
Proof.
  split; [vm_compute; reflexivity|]. split; [vm_compute; reflexivity|].
  apply (start_result_origin oneTask signalThenFailingOnStop
           (stateAfter oneTask signalThenFailingOnStop) (errorString "flush failed"));
    vm_compute; reflexivity.
Defined.

(** X10. With no task registered, [Start] never returns an error; and once
    [Stop] has been called or a signal taken, it can return, with nil. *)
Theorem start_without_tasks c tr s :
  run tr (initState c) = Some s ->
  backgroundTasks c = [] ->
  (forall r, StartResult s = Some r -> r = None)
  /\ (groupCtxDone s = true ->
      exists tr' s', run tr' s = Some s' /\ StartResult s' = Some None).
Proof.
  intros Hrun Hb.
  pose proof (reachable_Inv _ _ _ Hrun) as HI.
  assert (Hres : forall tr' s' r,
            run tr' s = Some s' -> StartResult s' = Some r -> r = None).
  { intros tr' s' [e|] Hr Hres; [exfalso|done].
    assert (Hrun' : run (tr ++ tr') (initState c) = Some s').
    { clear -Hrun Hr. revert Hrun. generalize (initState c).
      induction tr as [|ev tr IH]; simpl; intros s0 H; [by simplify_eq|].
      destruct (step s0 ev); [by apply IH|done]. }
    destruct (result_origin _ _ _ _ Hrun' Hres)
      as (_ & u & rest & _ & [(i & task & _ & Hi)|(i & task & _ & Hi & _)]);
      by rewrite Hb in Hi. }
  split; [intros r; by apply (Hres [] s)|].
  intros Hd. destruct (completion s HI Hd) as (tr' & s' & Hr & Hres' & _).
  exists tr', s'. split; [done|].
  rewrite Hres'. f_equal. by eapply Hres.
Qed.

Lemma start_without_tasks_witness :
  run (spawnAll 0 ++ [EvStopCall]) (initState (NewBrokkr []))
  = Some (stateAfter (NewBrokkr []) (spawnAll 0 ++ [EvStopCall]))
  /\ backgroundTasks (NewBrokkr []) = []
  /\ exists tr' s',
       run tr' (stateAfter (NewBrokkr []) (spawnAll 0 ++ [EvStopCall])) = Some s'
       /\ StartResult s' = Some None.
Proof.
  split; [vm_compute; reflexivity|]. split; [reflexivity|].
  destruct (start_without_tasks (NewBrokkr []) (spawnAll 0 ++ [EvStopCall])
              (stateAfter (NewBrokkr []) (spawnAll 0 ++ [EvStopCall])))
    as [_ H]; [vm_compute; reflexivity|reflexivity|].
  apply H. vm_compute; reflexivity.
Defined.

(** ** Failures of the stop phase *)

(** X5. A failure of [OnStop] (a deadline-exceeded error included) that is
    no cancellation and reaches the group while the error slot is free
    becomes the result of [Start], however the run goes on, and the run can go
    on until [Start] returns; the other stop-units and all start-units are as
    they were, so the other tasks' stop phases proceed. *)
Theorem stop_failure_is_returned_when_first c tr s i task ctx err e :
  run tr (initState c) = Some s ->
  stopUnits s !! i = Some (task, InStop ctx err) ->
  errors_Is e Canceled = false ->
  groupErr s = None ->
  exists s',
    step s (EvStopReturn i (Some e)) = Some s'
    /\ groupErr s' = Some e
    /\ (forall j, j <> i -> stopUnits s' !! j = stopUnits s !! j)
    /\ startUnits s' = startUnits s
    /\ (forall tr' s'' r,
          run tr' s' = Some s'' -> StartResult s'' = Some r -> r = Some e)
    /\ exists tr' s'', run tr' s' = Some s'' /\ StartResult s'' = Some (Some e).
Proof.
  intros Hrun Hi He Hg.
  pose proof (reachable_Inv _ _ _ Hrun) as HI.
  assert (Hst : step s (EvStopReturn i (Some e))
                = Some (submit (UStop i) (Some e)
                          (setStopUnits (<[i := (task, StopReturned)]> (stopUnits s)) s))).
  { cbn [step]. by rewrite Hi. }
  eexists. split; [exact Hst|].
  assert (Hg' : groupErr (submit (UStop i) (Some e)
                  (setStopUnits (<[i := (task, StopReturned)]> (stopUnits s)) s))
                = Some e).
  { autorewrite with brokkr. simpl. by rewrite Hg. }
  split; [done|]. autorewrite with brokkr. simpl.
  split; [intros j Hj; by apply list_lookup_insert_ne|]. split; [done|].
  destruct (result_decided _ e (step_Inv _ _ _ HI Hst) Hg') as [Hall Hex].
  simpl in Hall, Hex. rewrite He in Hall, Hex. by split.
Qed.

Lemma stop_failure_is_returned_when_first_witness :
  run (spawnAll 1 ++ [EvSignal SIGTERM; EvCoordSignal; EvStopWake 0 (inl "u0")])
      (initState oneTask)
  = Some (stateAfter oneTask
            (spawnAll 1 ++ [EvSignal SIGTERM; EvCoordSignal; EvStopWake 0 (inl "u0")]))
  /\ exists s',
       step (stateAfter oneTask
               (spawnAll 1 ++ [EvSignal SIGTERM; EvCoordSignal; EvStopWake 0 (inl "u0")]))
            (EvStopReturn 0 (Some DeadlineExceeded)) = Some s'
       /\ exists tr' s'',
            run tr' s' = Some s'' /\ StartResult s'' = Some (Some DeadlineExceeded).
Proof.
  split; [vm_compute; reflexivity|].
  destruct (stop_failure_is_returned_when_first oneTask
              (spawnAll 1 ++ [EvSignal SIGTERM; EvCoordSignal; EvStopWake 0 (inl "u0")])
              (stateAfter oneTask
                 (spawnAll 1 ++ [EvSignal SIGTERM; EvCoordSignal; EvStopWake 0 (inl "u0")]))
              0%nat taskA
              (withDeadline (withValue (withCancel Background) "u0" "a") (5 * Second))
              (Some Canceled) DeadlineExceeded)
    as (s' & H1 & _ & _ & _ & _ & H2); [vm_compute; reflexivity..|].
  by exists s'.
Defined.

Lemma uuidFault_not_canceled e : errors_Is (uuidFault e) Canceled = false.
Proof. reflexivity. Qed.

(** X6. The fault built when [uuid.NewUUID] fails is never taken for a
    cancellation, not even when the UUID error is [context.Canceled] itself,
    because it is formatted with [%v] and does not wrap the cause.  When it
    reaches the group while the error slot is free, the stop-unit has
    returned without calling [OnStop], and the fault is what [Start] returns,
    however the run goes on. *)
Theorem uuid_fault_is_returned_when_first c tr s i task e :
  run tr (initState c) = Some s ->
  stopUnits s !! i = Some (task, Waiting) ->
  groupCtxDone s = true ->
  groupErr s = None ->
  errors_Is (uuidFault e) Canceled = false
  /\ exists s',
       step s (EvStopWake i (inr e)) = Some s'
       /\ stopCalls s' = stopCalls s
       /\ stopUnits s' !! i = Some (task, StopReturned)
       /\ (forall tr' s'' r,
             run tr' s' = Some s'' -> StartResult s'' = Some r ->
             r = Some (uuidFault e))
       /\ exists tr' s'',
            run tr' s' = Some s'' /\ StartResult s'' = Some (Some (uuidFault e)).
Proof.
  intros Hrun Hi Hd Hg.
  pose proof (reachable_Inv _ _ _ Hrun) as HI.
  split; [apply uuidFault_not_canceled|].
  assert (Hst : step s (EvStopWake i (inr e))
                = Some (submit (UStop i) (Some (uuidFault e))
                          (setStopUnits (<[i := (task, StopReturned)]> (stopUnits s)) s))).
  { cbn [step]. by rewrite Hi, Hd. }
  eexists. split; [exact Hst|].
  assert (Hg' : groupErr (submit (UStop i) (Some (uuidFault e))
                  (setStopUnits (<[i := (task, StopReturned)]> (stopUnits s)) s))
                = Some (uuidFault e)).
  { autorewrite with brokkr. simpl. by rewrite Hg. }
  autorewrite with brokkr. simpl. split; [done|].
  split; [apply list_lookup_insert_eq; by eapply lookup_lt_Some|].
  destruct (result_decided _ (uuidFault e) (step_Inv _ _ _ HI Hst) Hg')
    as [Hall Hex].
  unfold filterCanceled in Hall, Hex.
  rewrite uuidFault_not_canceled in Hall, Hex. by split.
Qed.

Lemma uuid_fault_is_returned_when_first_witness :
  run (spawnAll 1 ++ [EvSignal SIGINT; EvCoordSignal]) (initState oneTask)
  = Some (stateAfter oneTask (spawnAll 1 ++ [EvSignal SIGINT; EvCoordSignal]))
  /\ errors_Is (uuidFault Canceled) Canceled = false
  /\ exists s',
       step (stateAfter oneTask (spawnAll 1 ++ [EvSignal SIGINT; EvCoordSignal]))
            (EvStopWake 0 (inr Canceled)) = Some s'
       /\ exists tr' s'',
            run tr' s' = Some s''
            /\ StartResult s'' = Some (Some (uuidFault Canceled)).
Proof.
  split; [vm_compute; reflexivity|].
  destruct (uuid_fault_is_returned_when_first oneTask
              (spawnAll 1 ++ [EvSignal SIGINT; EvCoordSignal])
              (stateAfter oneTask (spawnAll 1 ++ [EvSignal SIGINT; EvCoordSignal]))
              0%nat taskA Canceled)
    as (H0 & s' & H1 & _ & _ & _ & H2); [vm_compute; reflexivity..|].
  split; [exact H0|]. by exists s'.
Defined.

(** X13. When the coordination unit sees the group's context done while the
    error slot is free (after a call of [Stop], say), the [context.Canceled]
    it returns takes the slot: from then on [Start] returns nil whatever the
    tasks return afterwards, and the run can go on until it does. *)
Theorem coordination_unit_settles_nil c tr s :
  run tr (initState c) = Some s ->
  coordRunning s = true ->
  groupCtxDone s = true ->
  groupErr s = None ->
  exists s',
    step s EvCoordDone = Some s'
    /\ groupErr s' = Some Canceled
    /\ (forall tr' s'' r,
          run tr' s' = Some s'' -> StartResult s'' = Some r -> r = None)
    /\ exists tr' s'', run tr' s' = Some s'' /\ StartResult s'' = Some None.
Proof.
  intros Hrun Hc Hd Hg.
  pose proof (reachable_Inv _ _ _ Hrun) as HI.
  assert (Hst : step s EvCoordDone
                = Some (submit UCoord (Some Canceled) (setCoordReturned s))).
  { cbn [step]. by rewrite Hc, Hd. }
  eexists. split; [exact Hst|].
  assert (Hg' : groupErr (submit UCoord (Some Canceled) (setCoordReturned s))
                = Some Canceled).
  { autorewrite with brokkr. simpl. by rewrite Hg. }
  split; [done|].
  destruct (result_decided _ Canceled (step_Inv _ _ _ HI Hst) Hg') as [Hall Hex].
  by split.
Qed.

Lemma coordination_unit_settles_nil_witness :
  run (spawnAll 1 ++ [EvStopCall]) (initState oneTask)
  = Some (stateAfter oneTask (spawnAll 1 ++ [EvStopCall]))
  /\ exists s',
       step (stateAfter oneTask (spawnAll 1 ++ [EvStopCall])) EvCoordDone = Some s'
       /\ forall tr' s'' r,
            run tr' s' = Some s'' -> StartResult s'' = Some r -> r = None.
Proof.
  split; [vm_compute; reflexivity|].
  destruct (coordination_unit_settles_nil oneTask (spawnAll 1 ++ [EvStopCall])
              (stateAfter oneTask (spawnAll 1 ++ [EvStopCall])))
    as (s' & H1 & _ & H2 & _); [vm_compute; reflexivity..|].
  by exists s'.
Defined.

(** ** Signals *)

Lemma submit_interruptSignal u r s :
  interruptSignal (submit u r s) = interruptSignal s.
Proof. unfold submit. by destruct r. Qed.

Lemma Stop_frame s :
  interruptSignal (fst (Stop s)) = interruptSignal s
  /\ pc (fst (Stop s)) = pc s
  /\ self (fst (Stop s)) = self s.
Proof. unfold Stop, cancelMain. simpl. by repeat case_match. Qed.

Lemma step_signal_buffer s e s' :
  (length (interruptSignal s) <= 1)%nat
  /\ Forall (fun sg => relayed (self s) sg = true) (interruptSignal s)
  /\ (interruptSignal s <> [] -> notified s = true) ->
  step s e = Some s' ->
  (length (interruptSignal s') <= 1)%nat
  /\ Forall (fun sg => relayed (self s') sg = true) (interruptSignal s')
  /\ (interruptSignal s' <> [] -> notified s' = true).
Proof.
  intros (Hlen & HF & Hn) H. destruct e.
  - (* EvMain *)
    cbn [step] in H. unfold stepMain in H. unfold notified in *.
    destruct (pc s) as [[|t rest]|task rest|task rest| | |] eqn:Hpc;
      simplify_eq/=; (split; [done|split; [done|]]); try done;
      intros Hne; by specialize (Hn Hne).
  - (* EvStopCall *)
    cbn [step] in H. injection H as <-.
    unfold Stop, cancelMain, notified in *. simpl. by repeat case_match.
  - (* EvSignal *)
    cbn [step] in H.
    destruct (notified s && relayed (self s) sg) eqn:E; [|done].
    apply andb_prop in E as [E1 E2].
    destruct (interruptSignal s) eqn:Hq; simplify_eq/=.
    + split; [lia|]. split; [by repeat constructor|done].
    + rewrite Hq. done.
  - (* EvTick *)
    cbn [step] in H. destruct (0 <=? d); by simplify_eq/=.
  - (* EvCoordDone *)
    cbn [step] in H. destruct (coordRunning s && groupCtxDone s); [|done].
    injection H as <-. unfold notified in *.
    rewrite !submit_interruptSignal. autorewrite with brokkr. simpl. auto.
  - (* EvCoordSignal *)
    cbn [step] in H. destruct (coordRunning s) eqn:Hc; [|done].
    destruct (interruptSignal s) as [|sg q] eqn:Hq; [done|].
    destruct q; [|simpl in Hlen; lia].
    destruct (Stop (setInterruptSignal [] s)) as [s1 r] eqn:HS.
    injection H as <-.
    assert (Hs1 : s1 = fst (Stop (setInterruptSignal [] s))) by (by rewrite HS).
    destruct (Stop_frame (setInterruptSignal [] s)) as (F1 & F2 & F3).
    rewrite <- Hs1 in F1, F2, F3. simpl in F1, F2, F3.
    rewrite submit_interruptSignal. simpl. rewrite F1. simpl.
    split; [lia|]. split; [constructor|done].
  - (* EvStartReturn *)
    cbn [step] in H.
    destruct (startUnits s !! i) as [[task [|]]|]; try done.
    injection H as <-. unfold notified in *.
    rewrite !submit_interruptSignal. autorewrite with brokkr. simpl. auto.
  - (* EvStopWake *)
    cbn [step] in H.
    destruct (stopUnits s !! i) as [[task [| |]]|]; try done.
    destruct (groupCtxDone s); [|done].
    destruct u; [destruct (loopT s); [|done]|];
      injection H as <-; unfold notified in *;
      rewrite ?submit_interruptSignal; autorewrite with brokkr; simpl; auto.
  - (* EvStopReturn *)
    cbn [step] in H.
    destruct (stopUnits s !! i) as [[task [| |]]|]; try done.
    injection H as <-. unfold notified in *.
    rewrite !submit_interruptSignal. autorewrite with brokkr. simpl. auto.
Qed.

Lemma signal_buffer_aux c tr s :
  run tr (initState c) = Some s ->
  (length (interruptSignal s) <= 1)%nat
  /\ Forall (fun sg => relayed (self s) sg = true) (interruptSignal s)
  /\ (interruptSignal s <> [] -> notified s = true).
Proof.
  intros Hrun.
  apply (run_invariant _ (fun s e s' _ => step_signal_buffer s e s'))
    with (tr := tr) (s := initState c); [apply initState_Inv| |done].
  simpl. split; [lia|]. split; [constructor|done].
Qed.

(** X11. The channel for OS signals holds at most one signal at any time, and
    only signals the orchestrator subscribed to; it holds none before
    [signal.Notify] has run.  A signal arriving while one is pending is
    dropped: the state does not change. *)
Theorem signal_channel_bounded c tr s :
  run tr (initState c) = Some s ->
  (length (interruptSignal s) <= 1)%nat
  /\ (forall sg, sg ∈ interruptSignal s -> relayed c sg = true)
  /\ (interruptSignal s <> [] -> notified s = true)
  /\ (forall sg s',
        interruptSignal s <> [] -> step s (EvSignal sg) = Some s' -> s' = s).
Proof.
  intros Hrun.
  pose proof (reachable_self _ _ _ Hrun) as Hself.
  destruct (signal_buffer_aux c tr s Hrun) as (H1 & H2 & H3).
  split; [done|]. split.
  { rewrite list.Forall_forall, Hself in H2. exact H2. }
  split; [done|].
  intros sg s' Hne Hst. cbn [step] in Hst.
  destruct (notified s && relayed (self s) sg); [|done].
  destruct (interruptSignal s); [done|]. by simplify_eq.
Qed.

Lemma signal_channel_bounded_witness :
  run (spawnAll 1 ++ [EvSignal SIGTERM; EvSignal SIGINT; EvSignal SIGQUIT])
      (initState oneTask)
  = Some (stateAfter oneTask
            (spawnAll 1 ++ [EvSignal SIGTERM; EvSignal SIGINT; EvSignal SIGQUIT]))
  /\ interruptSignal
       (stateAfter oneTask
          (spawnAll 1 ++ [EvSignal SIGTERM; EvSignal SIGINT; EvSignal SIGQUIT]))
     = [SIGTERM]
  /\ (length (interruptSignal
                (stateAfter oneTask
                   (spawnAll 1 ++ [EvSignal SIGTERM; EvSignal SIGINT; EvSignal SIGQUIT])))
      <= 1)%nat.
Proof.
  split; [vm_compute; reflexivity|]. split; [vm_compute; reflexivity|].
  apply (signal_channel_bounded oneTask
           (spawnAll 1 ++ [EvSignal SIGTERM; EvSignal SIGINT; EvSignal SIGQUIT])).
  vm_compute; reflexivity.
Defined.

(** X12. A subscribed signal that arrives while [Start] waits and the
    coordination unit runs can be taken by that unit, whether or not another
    signal was already pending.  Taking it cancels [c.mainContext] exactly as
    a call of [Stop] does and empties the channel; the coordination unit
    returns nil, so the error slot and the record of returned errors are
    untouched and a later failure can still become the result of [Start]. *)
Theorem signal_triggers_stop c tr s sg :
  run tr (initState c) = Some s ->
  mainContextCancel c = Some (cancelOf (mainContext c)) ->
  coordRunning s = true ->
  relayed c sg = true ->
  exists s',
    run [EvSignal sg; EvCoordSignal] s = Some s'
    /\ mainDone s' = true
    /\ groupCtxDone s' = true
    /\ coordReturned s' = true
    /\ interruptSignal s' = []
    /\ groupErr s' = groupErr s
    /\ submitted s' = submitted s
    /\ stopCalls s' = stopCalls s.
Proof.
  intros Hrun Hcancel Hc Hrel.
  pose proof (reachable_self _ _ _ Hrun) as Hself.
  destruct (signal_buffer_aux c tr s Hrun) as (Hlen & _ & _).
  assert (Hn : notified s = true).
  { unfold coordRunning in Hc. apply andb_prop in Hc as [Hpc%bool_decide_eq_true _].
    unfold notified. by rewrite Hpc. }
  assert (Hstop : forall s0, self s0 = c -> coordRunning s0 = true ->
            (exists sg0, interruptSignal s0 = [sg0]) ->
            exists s', step s0 EvCoordSignal = Some s'
              /\ mainDone s' = true /\ groupCtxDone s' = true
              /\ coordReturned s' = true /\ interruptSignal s' = []
              /\ groupErr s' = groupErr s0 /\ submitted s' = submitted s0
              /\ stopCalls s' = stopCalls s0).
  { intros s0 Hs0 Hc0 [sg0 Hq]. cbn [step]. rewrite Hc0, Hq.
    destruct (Stop (setInterruptSignal [] s0)) as [s1 r] eqn:HS.
    assert (Hs1 : s1 = fst (Stop (setInterruptSignal [] s0))) by (by rewrite HS).
    assert (Hr : r = None) by (by injection HS as _ <-).
    assert (Hm : mainDone s1 = true).
    { rewrite Hs1. apply Stop_mainDone. simpl. by rewrite Hs0. }
    eexists. split; [reflexivity|]. subst r. unfold groupCtxDone.
    autorewrite with brokkr. simpl. rewrite Hm. simpl.
    rewrite Hs1. unfold Stop, cancelMain. simpl.
    repeat case_match; simpl; by rewrite ?app_nil_r. }
  set (s1 := match interruptSignal s with
             | [] => setInterruptSignal [sg] s
             | _ => s
             end).
  assert (Hsig : step s (EvSignal sg) = Some s1).
  { cbn [step]. rewrite Hn, Hself, Hrel. simpl. unfold s1.
    by destruct (interruptSignal s). }
  assert (H1 : self s1 = c /\ coordRunning s1 = true
               /\ (exists sg0, interruptSignal s1 = [sg0])
               /\ groupErr s1 = groupErr s /\ submitted s1 = submitted s
               /\ stopCalls s1 = stopCalls s).
  { unfold s1. destruct (interruptSignal s) as [|sg0 q] eqn:Hq.
    - repeat split; try done. by eexists.
    - destruct q; [|simpl in Hlen; lia]. repeat split; try done.
      exists sg0. done. }
  destruct H1 as (E1 & E2 & E3 & E4 & E5 & E6).
  destruct (Hstop s1 E1 E2 E3) as (s' & Hst & G1 & G2 & G3 & G4 & G5 & G6 & G7).
  exists s'. cbn [run]. rewrite Hsig, Hst.
  repeat split; congruence.
Qed.

Lemma signal_triggers_stop_witness :
  run (spawnAll 1 ++ [EvSignal SIGQUIT]) (initState oneTask)
  = Some (stateAfter oneTask (spawnAll 1 ++ [EvSignal SIGQUIT]))
  /\ mainContextCancel oneTask = Some (cancelOf (mainContext oneTask))
  /\ coordRunning (stateAfter oneTask (spawnAll 1 ++ [EvSignal SIGQUIT])) = true
  /\ relayed oneTask SIGTERM = true
  /\ exists s',
       run [EvSignal SIGTERM; EvCoordSignal]
           (stateAfter oneTask (spawnAll 1 ++ [EvSignal SIGQUIT])) = Some s'
       /\ mainDone s' = true
       /\ interruptSignal s' = []
       /\ groupErr s' = None.
Proof.
  do 4 (split; [vm_compute; reflexivity|]).
  destruct (signal_triggers_stop oneTask (spawnAll 1 ++ [EvSignal SIGQUIT])
              (stateAfter oneTask (spawnAll 1 ++ [EvSignal SIGQUIT])) SIGTERM)
    as (s' & H1 & H2 & _ & _ & H3 & H4 & _); [vm_compute; reflexivity..|].
  exists s'. split; [exact H1|]. split; [exact H2|]. split; [exact H3|exact H4].
Defined.

(** ** The work of the orchestrator is bounded *)

Lemma workLeft_submit u r s : workLeft (submit u r s) = workLeft s.
Proof. unfold workLeft. by autorewrite with brokkr. Qed.

Lemma stopWeight_cancelChild (l : list (Process * StopPhase)) :
  sum_list (stopWeight <$> (cancelChild <$> l)) = sum_list (stopWeight <$> l).
Proof.
  rewrite <- list_fmap_compose. f_equal. apply list_fmap_ext.
  intros i [task [|ctx [x|]|]] _; done.
Qed.

Lemma stopWeight_expireChild n (l : list (Process * StopPhase)) :
  sum_list (stopWeight <$> (expireChild n <$> l)) = sum_list (stopWeight <$> l).
Proof.
  rewrite <- list_fmap_compose. f_equal. apply list_fmap_ext.
  intros i [task [|ctx [x|]|]] _; simpl; try done.
  destruct (Deadline ctx) as [d|]; [|done]. by destruct (d <=? n).
Qed.

Lemma workLeft_Stop s : workLeft (fst (Stop s)) = workLeft s.
Proof.
  unfold Stop, cancelMain. simpl. repeat case_match; try done.
  unfold workLeft. simpl. by rewrite stopWeight_cancelChild.
Qed.

(** Every step of a goroutine of [Start] uses up work; calls of [Stop],
    signals and the clock neither add nor remove any. *)
Lemma step_work s e s' :
  step s e = Some s' ->
  (workLeft s' + (if unitEvent e then 1 else 0) <= workLeft s)%nat
  /\ (unitEvent e = false -> workLeft s' = workLeft s).
Proof.
  intros H. destruct e; simpl unitEvent.
  - (* EvMain *)
    split; [|done]. cbn [step] in H. unfold stepMain in H.
    destruct (pc s) as [[|t rest]|task rest|task rest| | |] eqn:Hpc;
      simplify_eq/=; unfold workLeft; simpl;
      rewrite ?Hpc, ?fmap_app, ?sum_list_with_app; simpl;
      rewrite ?sum_list_app; simpl; lia.
  - (* EvStopCall *)
    assert (s' = fst (Stop s)) as -> by (cbn [step] in H; congruence).
    rewrite workLeft_Stop. split; [lia|done].
  - (* EvSignal *)
    cbn [step] in H. destruct (notified s && relayed (self s) sg); [|done].
    destruct (interruptSignal s); simplify_eq/=; (split; [|done]);
      unfold workLeft; simpl; lia.
  - (* EvTick *)
    cbn [step] in H. destruct (0 <=? d); [|done]. injection H as <-.
    unfold workLeft. simpl. rewrite stopWeight_expireChild. split; [lia|done].
  - (* EvCoordDone *)
    split; [|done]. cbn [step] in H. unfold coordRunning in H.
    destruct (coordReturned s) eqn:Hc; [by rewrite andb_false_r in H|].
    destruct (bool_decide (pc s = PCWait) && negb false && groupCtxDone s); [|done].
    injection H as <-. rewrite workLeft_submit. unfold workLeft. simpl.
    rewrite Hc. lia.
  - (* EvCoordSignal *)
    split; [|done]. cbn [step] in H. unfold coordRunning in H.
    destruct (coordReturned s) eqn:Hc; [by rewrite andb_false_r in H|].
    destruct (bool_decide (pc s = PCWait) && negb false); [|done].
    destruct (interruptSignal s) as [|sg q]; [done|].
    destruct (Stop (setInterruptSignal q s)) as [s1 r] eqn:HS.
    injection H as <-. rewrite workLeft_submit.
    assert (Hs1 : s1 = fst (Stop (setInterruptSignal q s))) by (by rewrite HS).
    pose proof (workLeft_Stop (setInterruptSignal q s)) as Hw.
    rewrite <- Hs1 in Hw. unfold workLeft in *. simpl in *.
    assert (coordReturned s1 = false) as Hc1.
    { rewrite Hs1. unfold Stop, cancelMain. simpl. by repeat case_match. }
    rewrite Hc1 in Hw. rewrite Hc in Hw. rewrite ?Hc. lia.
  - (* EvStartReturn *)
    split; [|done]. cbn [step] in H.
    destruct (startUnits s !! i) as [[task [|]]|] eqn:Hi; try done.
    injection H as <-. rewrite workLeft_submit. unfold workLeft. simpl.
    pose proof (sum_list_insert startWeight _ _ _ (task, StartReturned) Hi).
    simpl in *. lia.
  - (* EvStopWake *)
    split; [|done]. cbn [step] in H.
    destruct (stopUnits s !! i) as [[task [| |]]|] eqn:Hi; try done.
    destruct (groupCtxDone s); [|done].
    destruct u as [id|errNewUUID].
    + destruct (loopT s) as [t|]; [|done]. injection H as <-.
      unfold workLeft. simpl.
      pose proof (sum_list_insert stopWeight _ _ _
        (task, InStop
           (WithTimeout (now s) (createChildContext (self s) id (GetName t))
              (stopTimeout (self s)))
           (freshErr s
              (WithTimeout (now s) (createChildContext (self s) id (GetName t))
                 (stopTimeout (self s))))) Hi).
      simpl in *. lia.
    + injection H as <-. rewrite workLeft_submit. unfold workLeft. simpl.
      pose proof (sum_list_insert stopWeight _ _ _ (task, StopReturned) Hi).
      simpl in *. lia.
  - (* EvStopReturn *)
    split; [|done]. cbn [step] in H.
    destruct (stopUnits s !! i) as [[task [| |]]|] eqn:Hi; try done.
    injection H as <-. rewrite workLeft_submit. unfold workLeft. simpl.
    pose proof (sum_list_insert stopWeight _ _ _ (task, StopReturned) Hi).
    simpl in *. lia.
Qed.

Lemma run_work tr : forall s s',
  run tr s = Some s' -> (unitSteps tr + workLeft s' <= workLeft s)%nat.
Proof.
  unfold unitSteps.
  induction tr as [|e tr IH]; intros s s' H; simpl in H.
  { simplify_eq. simpl. lia. }
  destruct (step s e) as [s1|] eqn:E; [|done].
  pose proof (IH _ _ H). destruct (step_work _ _ _ E) as [Hw _].
  rewrite fmap_cons.
  change (sum_list ((if unitEvent e then 1%nat else 0%nat)
                    :: ((fun e => if unitEvent e then 1%nat else 0%nat) <$> tr)))
    with ((if unitEvent e then 1 else 0)
          + sum_list ((fun e => if unitEvent e then 1%nat else 0%nat) <$> tr))%nat.
  lia.
Qed.

(** X16. In a run of [Start] with N registered tasks, the goroutines of
    [Start] take at most 6N+5 steps altogether, however many calls of [Stop],
    signals and clock ticks are interleaved: no unit of the orchestrator runs
    twice or loops. *)
Theorem orchestrator_steps_bounded c tr s :
  run tr (initState c) = Some s ->
  (unitSteps tr + workLeft s <= 6 * length (backgroundTasks c) + 5)%nat.
Proof.
  intros Hrun. pose proof (run_work _ _ _ Hrun) as H.
  unfold workLeft in H at 2. simpl in H. lia.
Qed.

Lemma orchestrator_steps_bounded_witness :
  run stopThenFailingOnStop (initState oneTask)
  = Some (stateAfter oneTask stopThenFailingOnStop)
  /\ unitSteps stopThenFailingOnStop = 10%nat
  /\ (unitSteps stopThenFailingOnStop
      + workLeft (stateAfter oneTask stopThenFailingOnStop)
      <= 6 * length (backgroundTasks oneTask) + 5)%nat.
Proof.
  split; [vm_compute; reflexivity|]. split; [vm_compute; reflexivity|].
  apply (orchestrator_steps_bounded oneTask stopThenFailingOnStop).
  vm_compute; reflexivity.
Defined.

(** X17. The orchestrator cannot get stuck once shutdown has been requested:
    in every state of a run where the group's context is done and [Start] has
    not returned, some goroutine of [Start] can take a step (the tasks are
    asked for nothing but to return). *)
Theorem no_deadlock_after_cancellation c tr s :
  run tr (initState c) = Some s ->
  groupCtxDone s = true ->
  StartResult s = None ->
  exists e s', unitEvent e = true /\ step s e = Some s'.
Proof.
  intros Hrun Hd Hr.
  pose proof (reachable_Inv _ _ _ Hrun) as HI.
  unfold StartResult in Hr. destruct (terminated s) eqn:Ht; [done|].
  destruct (progress s HI Hd Ht) as (e & s' & Hst & Hw & _).
  exists e, s'. split; [|done].
  destruct (unitEvent e) eqn:He; [done|].
  destruct (step_work _ _ _ Hst) as [_ Heq]. specialize (Heq He). lia.
Qed.

Lemma no_deadlock_after_cancellation_witness :
  run stopThenWake (initState oneTask) = Some (stateAfter oneTask stopThenWake)
  /\ groupCtxDone (stateAfter oneTask stopThenWake) = true
  /\ StartResult (stateAfter oneTask stopThenWake) = None
  /\ exists e s',
       unitEvent e = true /\ step (stateAfter oneTask stopThenWake) e = Some s'.
Proof.
  do 3 (split; [vm_compute; reflexivity|]).
  apply (no_deadlock_after_cancellation oneTask stopThenWake);
    vm_compute; reflexivity.
Defined.

(** ** What Start waits for *)

Lemma forallb_stopUnitDone_cancelChild (l : list (Process * StopPhase)) :
  forallb stopUnitDone (cancelChild <$> l) = forallb stopUnitDone l.
Proof.
  induction l as [|[task [|ctx [x|]|]] l IH]; simpl; by rewrite ?IH.
Qed.

(** X18. [Stop] only requests shutdown: it never makes [Start] return by
    itself, and called after [Start] has returned it does not change what was
    returned. *)
Theorem stop_does_not_end_start (s : RunState) :
  StartResult (fst (Stop s)) = StartResult s.
Proof.
  unfold Stop, cancelMain. simpl. repeat case_match; try done.
  unfold StartResult, terminated. simpl.
  by rewrite forallb_stopUnitDone_cancelChild.
Qed.

Lemma step_inStop_stays s e s' i task ctx err :
  step s e = Some s' ->
  stopUnits s !! i = Some (task, InStop ctx err) ->
  (forall r, e <> EvStopReturn i r) ->
  exists err', stopUnits s' !! i = Some (task, InStop ctx err').
Proof.
  intros H Hi Hne.
  step_inv H; autorewrite with brokkr; simpl;
    rewrite ?list_lookup_fmap, ?Hi; simpl; try (by eexists).
  all: try (eexists; by apply lookup_app_l_Some).
  all: try (destruct err as [x|]; simpl; [by eexists|];
            repeat case_match; by eexists).
  all: match goal with
       | H : stopUnits _ !! ?j = Some _ |- _ =>
           destruct (decide (j = i)) as [->|];
           [first [congruence | by edestruct Hne]
           |rewrite list_lookup_insert_ne by done; by eexists]
       end.
Qed.

Lemma lookup_forallb_false {A} (f : A -> bool) (l : list A) i x :
  l !! i = Some x -> f x = false -> forallb f l = false.
Proof.
  revert i. induction l as [|a l IH]; intros [|i] H Hx; simplify_eq/=.
  - by rewrite Hx.
  - rewrite (IH _ H Hx). apply andb_false_r.
Qed.

(** X19. [Start] waits for every [OnStop] it has called: from a state in
    which a task's [OnStop] is running, as long as that call does not return,
    the stop-unit stays inside it and [Start] does not return, whatever time
    passes and whatever else happens.  The stop timeout is announced through
    the context only; nothing ends the call from outside. *)
Theorem start_waits_for_onStop tr : forall s s' i task ctx err,
  run tr s = Some s' ->
  stopUnits s !! i = Some (task, InStop ctx err) ->
  (forall r, EvStopReturn i r ∉ tr) ->
  (exists err', stopUnits s' !! i = Some (task, InStop ctx err'))
  /\ StartResult s' = None.
Proof.
  induction tr as [|e tr IH]; intros s s' i task ctx err H Hi Hne; simpl in H.
  - simplify_eq. split; [by eexists|].
    unfold StartResult, terminated.
    rewrite (lookup_forallb_false stopUnitDone _ _ _ Hi eq_refl).
    by rewrite andb_false_r.
  - destruct (step s e) as [s1|] eqn:E; [|done].
    destruct (step_inStop_stays _ _ _ _ _ _ _ E Hi) as [err1 Hi1].
    { intros r ->. apply (Hne r). left. }
    eapply IH; [exact H|exact Hi1|].
    intros r Hr. apply (Hne r). by right.
Qed.

Lemma start_waits_for_onStop_witness :
  run [EvTick (3600 * Second); EvCoordDone; EvStartReturn 0 None; EvStopCall;
       EvTick (3600 * Second)]
      (stateAfter oneTask stopThenWake)
  = Some (stateAfter oneTask
            (stopThenWake ++ [EvTick (3600 * Second); EvCoordDone;
                              EvStartReturn 0 None; EvStopCall;
                              EvTick (3600 * Second)]))
  /\ stopUnits (stateAfter oneTask stopThenWake) !! 0%nat
     = Some (taskA,
             InStop (withDeadline (withValue (withCancel Background) "u0" "a")
                       (5 * Second))
                    (Some Canceled))
  /\ StartResult
       (stateAfter oneTask
          (stopThenWake ++ [EvTick (3600 * Second); EvCoordDone;
                            EvStartReturn 0 None; EvStopCall;
                            EvTick (3600 * Second)]))
     = None.
Proof.
  split; [vm_compute; reflexivity|]. split; [vm_compute; reflexivity|].
  eapply (start_waits_for_onStop
            [EvTick (3600 * Second); EvCoordDone; EvStartReturn 0 None; EvStopCall;
             EvTick (3600 * Second)]
            (stateAfter oneTask stopThenWake) _ 0%nat);
    [vm_compute; reflexivity|vm_compute; reflexivity|].
  intros r Hr.
  repeat (apply elem_of_cons in Hr as [Hr|Hr]; [discriminate Hr|]).
  by apply elem_of_nil in Hr.
Defined.

Lemma step_running_stays s e s' i task :
  step s e = Some s' ->
  startUnits s !! i = Some (task, Running) ->
  (forall r, e <> EvStartReturn i r) ->
  startUnits s' !! i = Some (task, Running).
Proof.
  intros H Hi Hne.
  step_inv H; autorewrite with brokkr; simpl; try done.
  - by apply lookup_app_l_Some.
  - match goal with
    | H : startUnits _ !! ?j = Some _ |- _ =>
        destruct (decide (j = i)) as [->|];
        [by edestruct Hne|by rewrite list_lookup_insert_ne]
    end.
Qed.

(** X20. [Start] waits for every [OnStart] as well: as long as the
    [OnStart] of a task does not return, its start-unit keeps running and
    [Start] does not return, whether or not shutdown has been requested and
    whatever time passes.  Cancelling the context is all the orchestrator does
    to end a task. *)
Theorem start_waits_for_onStart tr : forall s s' i task,
  run tr s = Some s' ->
  startUnits s !! i = Some (task, Running) ->
  (forall r, EvStartReturn i r ∉ tr) ->
  startUnits s' !! i = Some (task, Running) /\ StartResult s' = None.
Proof.
  induction tr as [|e tr IH]; intros s s' i task H Hi Hne; simpl in H.
  - simplify_eq. split; [done|].
    unfold StartResult, terminated.
    rewrite (lookup_forallb_false startUnitDone _ _ _ Hi eq_refl).
    by rewrite andb_false_r.
  - destruct (step s e) as [s1|] eqn:E; [|done].
    assert (Hi1 : startUnits s1 !! i = Some (task, Running)).
    { eapply step_running_stays; [exact E|exact Hi|].
      intros r ->. apply (Hne r). left. }
    eapply IH; [exact H|exact Hi1|].
    intros r Hr. apply (Hne r). by right.
Qed.

Lemma start_waits_for_onStart_witness :
  run [EvStopCall; EvCoordDone; EvStopWake 0 (inl "u0"); EvStopReturn 0 None;
       EvTick (3600 * Second)]
      (stateAfter oneTask (spawnAll 1))
  = Some (stateAfter oneTask
            (spawnAll 1 ++ [EvStopCall; EvCoordDone; EvStopWake 0 (inl "u0");
                            EvStopReturn 0 None; EvTick (3600 * Second)]))
  /\ startUnits (stateAfter oneTask (spawnAll 1)) !! 0%nat = Some (taskA, Running)
  /\ StartResult
       (stateAfter oneTask
          (spawnAll 1 ++ [EvStopCall; EvCoordDone; EvStopWake 0 (inl "u0");
                          EvStopReturn 0 None; EvTick (3600 * Second)]))
     = None.
Proof.
  split; [vm_compute; reflexivity|]. split; [vm_compute; reflexivity|].
  eapply (start_waits_for_onStart
            [EvStopCall; EvCoordDone; EvStopWake 0 (inl "u0"); EvStopReturn 0 None;
             EvTick (3600 * Second)]
            (stateAfter oneTask (spawnAll 1)) _ 0%nat);
    [vm_compute; reflexivity|vm_compute; reflexivity|].
  intros r Hr.
  repeat (apply elem_of_cons in Hr as [Hr|Hr]; [discriminate Hr|]).
  by apply elem_of_nil in Hr.
Defined.
